(** * Shield Web Guard: the URL threat classifier and the scan history

    A shallow embedding of [src/App.tsx]: the string predicates of
    [performSecurityChecks], the two branches of [scanUrl], the history
    updater, [clearHistory], and the persistence effect that React runs
    after a render in which [history] changed. *)

From Stdlib Require Import String Ascii List ZArith PrimFloat Lia Bool.
From stdpp Require Import gmap strings list fin_maps.
Import ListNotations.

Local Open Scope string_scope.
Local Open Scope list_scope.

(** ** The JavaScript built-ins the component calls

    A JavaScript string is a sequence of 16-bit code units; here it is a
    [string], one [ascii] per code unit, so the model covers the strings
    whose code units are below 256. *)
Module JS.

(** [s.startsWith(p)] *)
Definition startsWith (s p : string) : bool := String.prefix p s.

(** [s.includes(sub)]: [sub] occurs at some position of [s]. *)
Fixpoint includes (s sub : string) : bool :=
  String.prefix sub s
  || match s with
     | EmptyString => false
     | String _ s' => includes s' sub
     end.

(** [s.endsWith(suf)]: the last [suf.length] code units of [s] are [suf];
    false when [suf] is longer than [s]. *)
Definition endsWith (s suf : string) : bool :=
  let len := String.length s in
  let searchLength := String.length suf in
  (searchLength <=? len)%nat
  && String.eqb (String.substring (len - searchLength) searchLength s) suf.

(** [arr.some(p)] *)
Definition some {A : Type} (arr : list A) (p : A -> bool) : bool :=
  existsb p arr.

(** [arr.push(x)], on the value of the array. *)
Definition push {A : Type} (arr : list A) (x : A) : list A := arr ++ [x].

(** [arr.slice(start, stop)] for indices that are not negative: both are
    clamped to the length. *)
Definition slice {A : Type} (arr : list A) (start stop : nat) : list A :=
  firstn (stop - start) (skipn start arr).

(** [/[cs]/.test(s)] for a character class [cs]: some code unit of [s]
    is in the class. The regular expression has no [g] flag, so the
    test keeps no position between calls. *)
Definition test_class (cs : list ascii) (s : string) : bool :=
  existsb (fun c => existsb (Ascii.eqb c) cs) (list_ascii_of_string s).

(** What a call evaluates to: a value, or a thrown exception. *)
Inductive exn : Type :=
| TypeError (msg : string)
| SyntaxError (msg : string)
| RangeError (msg : string).

Inductive completion (A : Type) : Type :=
| Normal (a : A)
| Throw (e : exn).
Arguments Normal {A} a.
Arguments Throw {A} e.

Definition bind {A B : Type} (c : completion A) (k : A -> completion B)
  : completion B :=
  match c with
  | Normal a => k a
  | Throw e => Throw e
  end.

(** [try { body } catch (error) { handler }] *)
Definition try_catch {A : Type} (body : completion A) (handler : exn -> A) : A :=
  match body with
  | Normal a => a
  | Throw e => handler e
  end.

End JS.

Notation "'let*' x ':=' c 'in' k" := (JS.bind c (fun x => k))
  (at level 10, x pattern, c at level 100, k at level 200).

(** ** Data model (the [ScanResult] interface) *)

Record Certificates : Type := {
  valid : bool;
  issuer : option string;
  expiryDate : option string
}.

(** [certificates?:] is [None] when the property is [undefined]. *)
Record Details : Type := {
  protocol : string;
  domain : string;
  responseTime : float;
  certificates : option Certificates
}.

Record ScanResult : Type := {
  url : string;
  timestamp : Z;
  safe : bool;
  threats : list string;
  details : Details
}.

(** The two properties of a [URL] object that the component reads. *)
Record URL : Type := {
  URL_protocol : string;
  URL_hostname : string
}.

(** ** The platform

    What the browser and date-fns provide. [URL_new s] is [new URL(s)],
    which throws a [TypeError] when [s] does not parse.
    [format_next_year t] is the call
    [format(new Date().setFullYear(new Date().getFullYear() + 1), 'yyyy-MM-dd')]
    when the clock reads [t]: the text of the date, or the [RangeError]
    that [format] throws when the date one year on is not a valid date. *)
Class Platform : Type := {
  URL_new : string -> JS.completion URL;
  format_next_year : Z -> JS.completion string;
  JSON_stringify : list ScanResult -> string;
  JSON_parse : string -> JS.completion (list ScanResult)
}.

(** What one scan reads from its environment: the clock ([Date.now()],
    [new Date()]; the reads of one synchronous turn are taken at the same
    instant) and the draw of [Math.random()]. *)
Record Env : Type := {
  Date_now : Z;
  Math_random : float
}.

(** The character class of the special-character check; code 34 is the
    double quote. *)
Definition special_characters : list ascii :=
  ["<"; ">"; "'"; "034"; "%"; ";"; "("; ")"; "&"; "+"]%char.

(** The array literal [suspiciousTLDs] of [performSecurityChecks]. *)
Definition suspiciousTLDs : list string := [".xyz"; ".tk"; ".ml"; ".ga"; ".cf"].

Section Classifier.
Context {P : Platform}.

Definition performSecurityChecks (env : Env) (url : string)
  : JS.completion (list string * Details) :=
  let threats : list string := [] in
  let* urlObj := URL_new url in
  (* Protocol check *)
  let threats :=
    if negb (JS.startsWith url "https://")
    then JS.push threats "Insecure connection (non-HTTPS)"
    else threats in
  (* Domain checks *)
  let threats :=
    if JS.includes url "malware" || JS.includes url "virus"
    then JS.push threats "Potential malware detected"
    else threats in
  (* Suspicious TLD check *)
  let threats :=
    if JS.some suspiciousTLDs (fun tld => JS.endsWith url tld)
    then JS.push threats "Suspicious top-level domain detected"
    else threats in
  (* Length check *)
  let threats :=
    if (100 <? String.length url)%nat
    then JS.push threats "Unusually long URL detected"
    else threats in
  (* Special character check *)
  let threats :=
    if JS.test_class special_characters url
    then JS.push threats "Suspicious special characters detected"
    else threats in
  (* the returned object; its last property is the one that calls [format] *)
  let protocol := URL_protocol urlObj in
  let domain := URL_hostname urlObj in
  let responseTime := (Math_random env * 100 + 50)%float in
  let* certificates :=
    if JS.startsWith url "https://"
    then let* expiryDate := format_next_year (Date_now env) in
         JS.Normal (Some {| valid := true;
                            issuer := Some "DigiCert Inc";
                            expiryDate := Some expiryDate |})
    else JS.Normal None in
  JS.Normal
    (threats,
     {| protocol := protocol;
        domain := domain;
        responseTime := responseTime;
        certificates := certificates |}).

End Classifier.

(** ** The component and the local key-value store

    React compares the dependencies of an effect by identity
    ([Object.is]), so the [history] array carries the reference it was
    allocated at. *)
Record Array : Type := {
  ref : nat;
  elems : list ScanResult
}.

Record World : Type := {
  (* the five [useState] cells of [App] *)
  st_url : string;
  st_scanning : bool;
  st_result : option ScanResult;
  st_history : Array;
  st_showHistory : bool;
  (* the browser's [localStorage] *)
  localStorage : gmap string string;
  (* the next free array reference *)
  next_ref : nat;
  (* the [history] reference the effect last ran with; [None] before the
     first render *)
  effect_dep : option nat;
  (* the [url] captured by a call of [scanUrl] that awaits its timer *)
  in_flight : option string
}.

Definition setUrl (v : string) (w : World) : World :=
  {| st_url := v; st_scanning := st_scanning w; st_result := st_result w;
     st_history := st_history w; st_showHistory := st_showHistory w;
     localStorage := localStorage w; next_ref := next_ref w;
     effect_dep := effect_dep w; in_flight := in_flight w |}.

Definition setScanning (b : bool) (w : World) : World :=
  {| st_url := st_url w; st_scanning := b; st_result := st_result w;
     st_history := st_history w; st_showHistory := st_showHistory w;
     localStorage := localStorage w; next_ref := next_ref w;
     effect_dep := effect_dep w; in_flight := in_flight w |}.

Definition setResult (r : option ScanResult) (w : World) : World :=
  {| st_url := st_url w; st_scanning := st_scanning w; st_result := r;
     st_history := st_history w; st_showHistory := st_showHistory w;
     localStorage := localStorage w; next_ref := next_ref w;
     effect_dep := effect_dep w; in_flight := in_flight w |}.

(** [setHistory(f)] with an updater [f]; every array the component hands
    to [setHistory] ([[]], the result of [slice]) is newly allocated. *)
Definition setHistory (f : list ScanResult -> list ScanResult) (w : World) : World :=
  {| st_url := st_url w; st_scanning := st_scanning w; st_result := st_result w;
     st_history := {| ref := next_ref w; elems := f (elems (st_history w)) |};
     st_showHistory := st_showHistory w;
     localStorage := localStorage w; next_ref := S (next_ref w);
     effect_dep := effect_dep w; in_flight := in_flight w |}.

Definition setShowHistory (b : bool) (w : World) : World :=
  {| st_url := st_url w; st_scanning := st_scanning w; st_result := st_result w;
     st_history := st_history w; st_showHistory := b;
     localStorage := localStorage w; next_ref := next_ref w;
     effect_dep := effect_dep w; in_flight := in_flight w |}.

Definition set_localStorage (m : gmap string string) (w : World) : World :=
  {| st_url := st_url w; st_scanning := st_scanning w; st_result := st_result w;
     st_history := st_history w; st_showHistory := st_showHistory w;
     localStorage := m; next_ref := next_ref w;
     effect_dep := effect_dep w; in_flight := in_flight w |}.

Definition set_effect_dep (d : option nat) (w : World) : World :=
  {| st_url := st_url w; st_scanning := st_scanning w; st_result := st_result w;
     st_history := st_history w; st_showHistory := st_showHistory w;
     localStorage := localStorage w; next_ref := next_ref w;
     effect_dep := d; in_flight := in_flight w |}.

Definition set_in_flight (u : option string) (w : World) : World :=
  {| st_url := st_url w; st_scanning := st_scanning w; st_result := st_result w;
     st_history := st_history w; st_showHistory := st_showHistory w;
     localStorage := localStorage w; next_ref := next_ref w;
     effect_dep := effect_dep w; in_flight := u |}.

(** What the user and the timer can do to the mounted component. *)
Inductive Event : Type :=
| Type_url (v : string)     (* [onChange] of the input *)
| Click_scan                (* [onClick={scanUrl}] *)
| Timer_fires (env : Env)   (* the 1500 ms timeout resolves *)
| Click_history             (* the header button *)
| Click_clear.              (* [onClick={clearHistory}] *)

Section App.
Context {P : Platform}.

(** [[scanResult, ...prev].slice(0, 10)] *)
Definition history_updater (scanResult : ScanResult) (prev : list ScanResult)
  : list ScanResult :=
  JS.slice (scanResult :: prev) 0 10.

(** [scanUrl] up to its [await]. *)
Definition scanUrl_begin (w : World) : World :=
  set_in_flight (Some (st_url w)) (setScanning true w).

(** [scanUrl] from the [await] on, for the [url] it captured. *)
Definition scanUrl_resume (env : Env) (url : string) (w : World) : World :=
  let w :=
    JS.try_catch
      (let* checked := performSecurityChecks env url in
       let threats := fst checked in
       let details := snd checked in
       let scanResult :=
         {| url := url;
            timestamp := Date_now env;
            safe := (length threats =? 0)%nat;
            threats := threats;
            details := details |} in
       let w := setResult (Some scanResult) w in
       let w := setHistory (history_updater scanResult) w in
       JS.Normal w)
      (fun error =>
         setResult
           (Some {| url := url;
                    timestamp := Date_now env;
                    safe := false;
                    threats := ["Invalid URL format"];
                    details := {| protocol := "unknown";
                                  domain := "unknown";
                                  responseTime := 0%float;
                                  certificates := None |} |})
           w) in
  setScanning false w.

Definition clearHistory (w : World) : World :=
  let w := setHistory (fun _ => []) w in
  set_localStorage (delete "scan-history" (localStorage w)) w.

(** The body of [useEffect(..., [history])]. *)
Definition persist_history (w : World) : World :=
  set_localStorage
    (<["scan-history" := JSON_stringify (elems (st_history w))]> (localStorage w))
    w.

(** After a render, the effect runs when it never ran or when [history]
    is not the array it last ran with. *)
Definition commit (w : World) : World :=
  if decide (effect_dep w = Some (ref (st_history w)))
  then w
  else set_effect_dep (Some (ref (st_history w))) (persist_history w).

(** Mounting [App] over a store: the initialiser of [history], then the
    first render. *)
Definition mount (store : gmap string string) : JS.completion World :=
  let saved := store !! "scan-history" in
  let* initial :=
    match saved with
    | Some text => if String.eqb text "" then JS.Normal [] else JSON_parse text
    | None => JS.Normal []
    end in
  JS.Normal
    (commit
       {| st_url := ""; st_scanning := false; st_result := None;
          st_history := {| ref := 0; elems := initial |};
          st_showHistory := false;
          localStorage := store; next_ref := 1;
          effect_dep := None; in_flight := None |}).

(** Whether the control behind an event is there to be used. *)
Definition enabled (e : Event) (w : World) : bool :=
  match e with
  | Type_url _ => true
  | Click_scan => negb (st_scanning w || String.eqb (st_url w) "")
  | Timer_fires _ => match in_flight w with Some _ => true | None => false end
  | Click_history => true
  | Click_clear =>
      st_showHistory w && negb (length (elems (st_history w)) =? 0)%nat
  end.

(** The handler of an event, without the render that follows. *)
Definition handler (e : Event) (w : World) : World :=
  match e with
  | Type_url v => setUrl v w
  | Click_scan => scanUrl_begin w
  | Timer_fires env =>
      match in_flight w with
      | Some url => set_in_flight None (scanUrl_resume env url w)
      | None => w
      end
  | Click_history => setShowHistory (negb (st_showHistory w)) w
  | Click_clear => clearHistory w
  end.

(** An event: its handler, then the render and its effect. *)
Definition handle (e : Event) (w : World) : World := commit (handler e w).

Inductive step : World -> World -> Prop :=
| step_event (e : Event) (w : World) :
    enabled e w = true -> step w (handle e w).

(** The worlds a session reaches from [w0]. *)
Inductive reaches (w0 : World) : World -> Prop :=
| reaches_refl : reaches w0 w0
| reaches_step (w w' : World) : reaches w0 w -> step w w' -> reaches w0 w'.

(** A session in a browser profile that holds no saved history. *)
Definition reachable (w : World) : Prop :=
  exists (store : gmap string string) (w0 : World),
    store !! "scan-history" = None /\ mount store = JS.Normal w0 /\ reaches w0 w.

(** Running a list of events, skipping those whose control is gone. *)
Definition run (es : list Event) (w : World) : World :=
  fold_left (fun w e => if enabled e w then handle e w else w) es w.

End App.

(** ** The checks as the specification lists them

    Five checks, each a condition on the raw string and a label, in the
    order protocol, malware substring, suspicious TLD, length, special
    characters. [fired_labels] keeps the labels of the checks that fire. *)
Definition spec_checks : list ((string -> bool) * string) :=
  [ (fun s => negb (JS.startsWith s "https://"),
     "Insecure connection (non-HTTPS)");
    (fun s => JS.includes s "malware" || JS.includes s "virus",
     "Potential malware detected");
    (fun s => existsb (JS.endsWith s) [".xyz"; ".tk"; ".ml"; ".ga"; ".cf"],
     "Suspicious top-level domain detected");
    (fun s => (100 <? String.length s)%nat,
     "Unusually long URL detected");
    (fun s => JS.test_class special_characters s,
     "Suspicious special characters detected") ].

Definition fired_labels (s : string) : list string :=
  map snd (List.filter (fun check => fst check s) spec_checks).

(** Appending to a history as the specification words it: prepend, then
    keep the first 10 entries. *)
Definition spec_append (r : ScanResult) (h : list ScanResult) : list ScanResult :=
  firstn 10 (r :: h).

(** [safe] is true iff the threats list is empty. *)
Definition safe_iff_no_threats (r : ScanResult) : Prop :=
  safe r = true <-> threats r = [].

(** ** A platform for the worked examples

    [example_URL_new] returns what the browser's URL parser returns on the
    four URLs listed and on [not a url], and rejects every other string;
    it is used at those inputs only. [example_format_next_year] gives
    the date text at the clock of the examples, and throws at clocks
    within 365 days of the last date a [Date] can hold (8.64e15 ms), where
    the date one year on is invalid; it is used at [example_env] and at
    [example_env_late] only. The other members render a history by its
    urls and reject every text. *)
Definition example_URL_new (s : string) : JS.completion URL :=
  if String.eqb s "http://example.xyz"
  then JS.Normal {| URL_protocol := "http:"; URL_hostname := "example.xyz" |}
  else if String.eqb s "https://example.com"
  then JS.Normal {| URL_protocol := "https:"; URL_hostname := "example.com" |}
  else if String.eqb s "http://example.xyz/"
  then JS.Normal {| URL_protocol := "http:"; URL_hostname := "example.xyz" |}
  else if String.eqb s "http://example.xyz/a.tk"
  then JS.Normal {| URL_protocol := "http:"; URL_hostname := "example.xyz" |}
  else JS.Throw (JS.TypeError "Invalid URL").

Definition example_format_next_year (t : Z) : JS.completion string :=
  if (8639968464000000 <? t)%Z
  then JS.Throw (JS.RangeError "Invalid time value")
  else JS.Normal "2027-11-02".

Definition example_platform : Platform :=
  {| URL_new := example_URL_new;
     format_next_year := example_format_next_year;
     JSON_stringify :=
       fun h => String.append "[" (String.append (String.concat "," (map url h)) "]");
     JSON_parse := fun _ => JS.Throw (JS.SyntaxError "Unexpected token") |}.

Definition example_env : Env := {| Date_now := 1793646000000; Math_random := 0.25 |}.

(** A clock reading one second before the last date a [Date] can hold. *)
Definition example_env_late : Env :=
  {| Date_now := 8639999999999000; Math_random := 0.25 |}.

(** The world of the examples: mounted over an empty store. *)
Definition example_world : World :=
  JS.try_catch (mount (P := example_platform) ∅)
    (fun _ =>
       {| st_url := ""; st_scanning := false; st_result := None;
          st_history := {| ref := 0; elems := [] |}; st_showHistory := false;
          localStorage := ∅; next_ref := 1; effect_dep := None;
          in_flight := None |}).

(** The example session: a scan of [http://example.xyz], then the history
    panel is opened. *)
Definition example_scanned : World :=
  run (P := example_platform)
    [Type_url "http://example.xyz"; Click_scan; Timer_fires example_env; Click_history]
    example_world.

(** A session whose latest result is of [https://example.com]. *)
Definition example_scanned_https : World :=
  run (P := example_platform)
    [Type_url "https://example.com"; Click_scan; Timer_fires example_env]
    example_world.

(** A result with its response time blanked, to compare two results on
    everything else. *)
Definition without_responseTime (r : ScanResult) : ScanResult :=
  {| url := url r;
     timestamp := timestamp r;
     safe := safe r;
     threats := threats r;
     details := {| protocol := protocol (details r);
                   domain := domain (details r);
                   responseTime := 0%float;
                   certificates := certificates (details r) |} |}.

(** Eleven results to append, told apart by their timestamps. *)
Definition example_result (t : Z) : ScanResult :=
  {| url := "https://example.com";
     timestamp := t;
     safe := true;
     threats := [];
     details := {| protocol := "https:";
                   domain := "example.com";
                   responseTime := 75%float;
                   certificates := None |} |}.

Definition example_results : list ScanResult :=
  map example_result [1; 2; 3; 4; 5; 6; 7; 8; 9; 10; 11]%Z.

(** A world that holds eleven entries, one more than the component itself
    keeps, with a scan of [http://example.xyz] awaiting its timer. *)
Definition example_full_world : World :=
  set_in_flight (Some "http://example.xyz")
    (setScanning true
       (setUrl "http://example.xyz"
          (setHistory (fun _ => example_results) example_world))).

(** ** Invariants of a session *)

(** The effect has run for the current [history] array, and that array
    is one the allocator has handed out. *)
Definition committed (w : World) : Prop :=
  effect_dep w = Some (ref (st_history w)) /\ ref (st_history w) < next_ref w.

Definition bounded (w : World) : Prop :=
  length (elems (st_history w)) <= 10.

Definition results_ok (w : World) : Prop :=
  (forall r, st_result w = Some r -> safe_iff_no_threats r)
  /\ Forall safe_iff_no_threats (elems (st_history w)).

(** ** Where the results of a session come from *)

Section Provenance.
Context {P : Platform}.

(** [r] is what the [try] branch of [scanUrl] builds for its string. *)
Definition from_parsed_scan (r : ScanResult) : Prop :=
  exists env d,
    performSecurityChecks env (url r) = JS.Normal (threats r, d)
    /\ details r = d
    /\ safe r = (length (threats r) =? 0)%nat
    /\ timestamp r = Date_now env.

(** [r] is what the [catch] branch builds, when the checks threw. *)
Definition from_failed_scan (r : ScanResult) : Prop :=
  exists env e,
    performSecurityChecks env (url r) = JS.Throw e
    /\ r = {| url := url r;
              timestamp := Date_now env;
              safe := false;
              threats := ["Invalid URL format"];
              details := {| protocol := "unknown";
                            domain := "unknown";
                            responseTime := 0%float;
                            certificates := None |} |}.

Definition provenance (w : World) : Prop :=
  (forall r, st_result w = Some r -> from_parsed_scan r \/ from_failed_scan r)
  /\ Forall from_parsed_scan (elems (st_history w)).

(** The store holds the serialised current history. *)
Definition persisted (w : World) : Prop :=
  localStorage w !! "scan-history" = Some (JSON_stringify (elems (st_history w))).

End Provenance.

(** [scanning] is set exactly while a call of [scanUrl] awaits its timer,
    and the string that call captured is not empty. *)
Definition pending_ok (w : World) : Prop :=
  st_scanning w = match in_flight w with Some _ => true | None => false end
  /\ (forall u, in_flight w = Some u -> u <> "").

(** No string scanned in the session was empty. *)
Definition urls_nonempty (w : World) : Prop :=
  (forall r, st_result w = Some r -> url r <> "")
  /\ Forall (fun r => url r <> "") (elems (st_history w)).

(** ** What the component renders

    The conditionals of the JSX that [App] returns: which texts and which
    panels are there. The lines that only format a value for display are
    left out. *)
Record ResultView : Type := {
  (* [result.safe ? ... 'URL is Safe' : ... 'Threats Detected'] *)
  heading : string;
  (* [result.details.certificates && (...)] *)
  certificate_panel : option Certificates;
  (* [!result.safe && (... result.threats.map ...)] *)
  threats_panel : option (list string)
}.

Record View : Type := {
  (* [showHistory ? 'Hide History' : 'Show History'] *)
  toggle_text : string;
  (* [disabled={scanning || !url}] *)
  scan_disabled : bool;
  (* [scanning ? ... 'Scanning...' : ... 'Scan URL'] *)
  scan_text : string;
  (* [result && (...)] *)
  result_view : option ResultView;
  (* [showHistory && history.length > 0 && (...)], one row per entry, with
     the Clear button *)
  history_panel : option (list ScanResult)
}.

Definition render (w : World) : View :=
  {| toggle_text := if st_showHistory w then "Hide History" else "Show History";
     scan_disabled := st_scanning w || String.eqb (st_url w) "";
     scan_text := if st_scanning w then "Scanning..." else "Scan URL";
     result_view :=
       match st_result w with
       | Some result =>
           Some {| heading := if safe result then "URL is Safe" else "Threats Detected";
                   certificate_panel := certificates (details result);
                   threats_panel :=
                     if negb (safe result) then Some (threats result) else None |}
       | None => None
       end;
     history_panel :=
       if st_showHistory w && (0 <? length (elems (st_history w)))%nat
       then Some (elems (st_history w))
       else None |}.

(** ** More worked examples *)

(** A string of [n] letters [a]. *)
Fixpoint letters (n : nat) : string :=
  match n with
  | 0 => EmptyString
  | S n' => String "a" (letters n')
  end.

Definition example_long_url : string :=
  String.append "https://example.com/" (letters 100).

(** [example_URL_new] with three more URLs the browser's parser accepts. *)
Definition example_URL_new_more (s : string) : JS.completion URL :=
  if String.eqb s "https://malware.example.com/"
  then JS.Normal {| URL_protocol := "https:"; URL_hostname := "malware.example.com" |}
  else if String.eqb s example_long_url
  then JS.Normal {| URL_protocol := "https:"; URL_hostname := "example.com" |}
  else if String.eqb s "https://example.com/?q=a&b"
  then JS.Normal {| URL_protocol := "https:"; URL_hostname := "example.com" |}
  else example_URL_new s.

(** The entry that a scan of [http://example.xyz] leaves at the clock and
    the draw of the examples. *)
Definition example_entry : ScanResult :=
  {| url := "http://example.xyz";
     timestamp := 1793646000000;
     safe := false;
     threats := ["Insecure connection (non-HTTPS)";
                 "Suspicious top-level domain detected"];
     details := {| protocol := "http:";
                   domain := "example.xyz";
                   responseTime := 75%float;
                   certificates := None |} |}.

(** As [example_platform], with the longer table and a [JSON_parse] that
    reads back two of the texts its [JSON_stringify] writes: that of the
    empty history and that of the history holding [example_entry]. *)
Definition example_platform_more : Platform :=
  {| URL_new := example_URL_new_more;
     format_next_year := example_format_next_year;
     JSON_stringify :=
       fun h => String.append "[" (String.append (String.concat "," (map url h)) "]");
     JSON_parse :=
       fun text => if String.eqb text "[]"
                   then JS.Normal []
                   else if String.eqb text "[http://example.xyz]"
                   then JS.Normal [example_entry]
                   else JS.Throw (JS.SyntaxError "Unexpected token") |}.

(** The example session on that platform. *)
Definition example_scanned_more : World :=
  run (P := example_platform_more)
    [Type_url "http://example.xyz"; Click_scan; Timer_fires example_env; Click_history]
    example_world.

(** * Properties *)

(** ** The built-ins meet their descriptions *)

Lemma append_nil (b : string) : String.append EmptyString b = b.
Proof. reflexivity. Qed.

Lemma append_cons (c : ascii) (a b : string) :
  String.append (String c a) b = String c (String.append a b).
Proof. reflexivity. Qed.

Lemma string_length_append (a b : string) :
  String.length (String.append a b) = String.length a + String.length b.
Proof.
  induction a as [|c a IH]; [reflexivity|].
  rewrite append_cons. cbn. now rewrite IH.
Qed.

Lemma substring_all (s : string) : String.substring 0 (String.length s) s = s.
Proof. induction s as [|c s IH]; cbn; [reflexivity|now rewrite IH]. Qed.

Lemma substring_append_skip (a b : string) :
  String.substring (String.length a) (String.length b) (String.append a b) = b.
Proof.
  induction a as [|c a IH]; [apply substring_all|].
  rewrite append_cons. cbn. exact IH.
Qed.

Lemma substring_split (s : string) (k : nat) :
  k <= String.length s ->
  s = String.append (String.substring 0 k s)
                    (String.substring k (String.length s - k) s).
Proof.
  revert k. induction s as [|c s IH]; intros k Hk.
  - cbn in Hk. assert (k = 0) as -> by lia. reflexivity.
  - destruct k as [|k].
    + cbn. rewrite append_nil. now rewrite substring_all.
    + cbn in Hk. cbn. rewrite append_cons. f_equal. apply IH. lia.
Qed.

(** [s.startsWith(p)] holds exactly when [s] is [p] followed by something. *)
Lemma startsWith_spec (s p : string) :
  JS.startsWith s p = true <-> exists rest, s = String.append p rest.
Proof.
  unfold JS.startsWith. revert s.
  induction p as [|a p IH]; intros s.
  - split; [intros _; now exists s|intros _; destruct s; reflexivity].
  - destruct s as [|b s]; cbn.
    + split; [discriminate|intros [rest Hr]; discriminate Hr].
    + destruct (ascii_dec a b) as [->|Hne].
      * rewrite IH. split; intros [rest Hr]; exists rest.
        -- now rewrite Hr.
        -- now injection Hr.
      * split; [discriminate|].
        intros [rest Hr]. injection Hr as Hab _. congruence.
Qed.

(** [s.endsWith(suf)] holds exactly when [s] is something followed by [suf]. *)
Lemma endsWith_spec (s suf : string) :
  JS.endsWith s suf = true <-> exists front, s = String.append front suf.
Proof.
  unfold JS.endsWith. rewrite andb_true_iff, Nat.leb_le, String.eqb_eq. split.
  - intros [Hle Hsub]. exists (String.substring 0 (String.length s - String.length suf) s).
    rewrite (substring_split s (String.length s - String.length suf)) at 1 by lia.
    f_equal. rewrite <- Hsub at 3. f_equal. lia.
  - intros [front ->]. rewrite string_length_append. split; [lia|].
    replace (String.length front + String.length suf - String.length suf)
      with (String.length front) by lia.
    apply substring_append_skip.
Qed.

(** [s.includes(sub)] holds exactly when [sub] occurs inside [s]. *)
Lemma includes_spec (s sub : string) :
  JS.includes s sub = true
  <-> exists before after, s = String.append before (String.append sub after).
Proof.
  induction s as [|c s IH]; cbn [JS.includes]; rewrite orb_true_iff.
  - split.
    + intros [Hp|Hf]; [|discriminate Hf].
      apply (startsWith_spec EmptyString sub) in Hp as [rest Hr].
      exists EmptyString, rest. exact Hr.
    + intros (before & after & Heq). left.
      destruct before as [|b before]; [|discriminate Heq].
      apply (startsWith_spec EmptyString sub). now exists after.
  - split.
    + intros [Hp|Hrec].
      * apply (startsWith_spec (String c s) sub) in Hp as [rest Hr].
        exists EmptyString, rest. exact Hr.
      * apply IH in Hrec as (before & after & ->).
        exists (String c before), after. reflexivity.
    + intros (before & after & Heq).
      destruct before as [|b before].
      * left. apply (startsWith_spec (String c s) sub). now exists after.
      * right. apply IH. injection Heq as _ ->. now exists before, after.
Qed.

(** The class test finds a code unit of the class. *)
Lemma test_class_spec (cs : list ascii) (s : string) :
  JS.test_class cs s = true
  <-> exists c, In c (list_ascii_of_string s) /\ In c cs.
Proof.
  unfold JS.test_class. rewrite existsb_exists. split.
  - intros (c & Hc & Hcs). exists c. split; [exact Hc|].
    apply existsb_exists in Hcs as (c' & Hin & Heq).
    apply Ascii.eqb_eq in Heq as ->. exact Hin.
  - intros (c & Hc & Hcs). exists c. split; [exact Hc|].
    apply existsb_exists. exists c. split; [exact Hcs|apply Ascii.eqb_refl].
Qed.

(** ** The classifier *)

Section ClassifierFacts.
Context {P : Platform}.

(** The classifier as two calls that can throw, then a value: the labels
    in the list are those of the checks that fire. *)
Lemma performSecurityChecks_eq env url :
  performSecurityChecks env url
  = JS.bind (URL_new url) (fun urlObj =>
      JS.bind
        (if JS.startsWith url "https://"
         then JS.bind (format_next_year (Date_now env)) (fun expiryDate =>
                JS.Normal (Some {| valid := true;
                                   issuer := Some "DigiCert Inc";
                                   expiryDate := Some expiryDate |}))
         else JS.Normal None)
        (fun certificates =>
           JS.Normal
             (fired_labels url,
              {| protocol := URL_protocol urlObj;
                 domain := URL_hostname urlObj;
                 responseTime := (Math_random env * 100 + 50)%float;
                 certificates := certificates |}))).
Proof.
  unfold performSecurityChecks, fired_labels, spec_checks, JS.some, suspiciousTLDs.
  cbn [List.filter map fst snd].
  destruct (URL_new url) as [urlObj|e]; [|reflexivity].
  cbn [JS.bind].
  destruct (JS.startsWith url "https://"); cbn [negb];
    destruct (JS.includes url "malware" || JS.includes url "virus");
    destruct (existsb (JS.endsWith url) [".xyz"; ".tk"; ".ml"; ".ga"; ".cf"]);
    destruct (100 <? String.length url)%nat;
    destruct (JS.test_class special_characters url);
    reflexivity.
Qed.

(** When the classifier returns, the string parsed, the threats are the
    fired labels, and the certificate is there exactly for an [https://]
    string, with the date text that [format] returned. *)
Lemma performSecurityChecks_Normal env url ts d :
  performSecurityChecks env url = JS.Normal (ts, d) ->
  exists urlObj,
    URL_new url = JS.Normal urlObj
    /\ ts = fired_labels url
    /\ exists cert,
        d = {| protocol := URL_protocol urlObj;
               domain := URL_hostname urlObj;
               responseTime := (Math_random env * 100 + 50)%float;
               certificates := cert |}
        /\ if JS.startsWith url "https://"
           then exists text,
                  format_next_year (Date_now env) = JS.Normal text
                  /\ cert = Some {| valid := true;
                                    issuer := Some "DigiCert Inc";
                                    expiryDate := Some text |}
           else cert = None.
Proof.
  rewrite performSecurityChecks_eq. unfold JS.bind.
  destruct (URL_new url) as [urlObj|e]; [|discriminate].
  intros Heq. exists urlObj. split; [reflexivity|].
  destruct (JS.startsWith url "https://").
  - destruct (format_next_year (Date_now env)) as [text|e]; [|discriminate].
    injection Heq as <- <-. split; [reflexivity|].
    eexists. split; [reflexivity|]. now exists text.
  - injection Heq as <- <-. split; [reflexivity|].
    eexists. split; reflexivity.
Qed.

Lemma performSecurityChecks_Throw env url e :
  URL_new url = JS.Throw e -> performSecurityChecks env url = JS.Throw e.
Proof. intros Hp. rewrite performSecurityChecks_eq. now rewrite Hp. Qed.

(** A string that parses and does not start with [https://] never
    reaches [format]. *)
Lemma performSecurityChecks_non_https env url urlObj :
  URL_new url = JS.Normal urlObj ->
  JS.startsWith url "https://" = false ->
  performSecurityChecks env url
  = JS.Normal (fired_labels url,
               {| protocol := URL_protocol urlObj;
                  domain := URL_hostname urlObj;
                  responseTime := (Math_random env * 100 + 50)%float;
                  certificates := None |}).
Proof. intros Hp Hs. rewrite performSecurityChecks_eq, Hp, Hs. reflexivity. Qed.


(** For an [https://] string that parses, an exception of [format] is the
    classifier's. *)
Lemma performSecurityChecks_format_throws env url urlObj e :
  URL_new url = JS.Normal urlObj ->
  JS.startsWith url "https://" = true ->
  format_next_year (Date_now env) = JS.Throw e ->
  performSecurityChecks env url = JS.Throw e.
Proof. intros Hp Hs Hf. rewrite performSecurityChecks_eq, Hp, Hs. cbn. now rewrite Hf. Qed.

End ClassifierFacts.

(** The five labels are pairwise distinct, so a label is in the list
    exactly when its own check fired. *)
Lemma spec_labels_NoDup : List.NoDup (map snd spec_checks).
Proof.
  unfold spec_checks; cbn [map snd].
  repeat (apply List.NoDup_cons; [cbn [In]; intuition discriminate|]).
  apply List.NoDup_nil.
Qed.

Lemma fired_labels_In (s : string) (check : (string -> bool) * string) :
  In check spec_checks ->
  (In (snd check) (fired_labels s) <-> fst check s = true).
Proof.
  intros Hin. unfold fired_labels. split.
  - intros Hl. apply in_map_iff in Hl as (c' & Heq & Hc').
    apply filter_In in Hc' as [Hc' Hfire].
    assert (c' = check) as ->; [|exact Hfire].
    revert Hin Hc' Heq. unfold spec_checks. cbn [In].
    intros Hin Hc'.
    repeat (destruct Hin as [<-|Hin]); try contradiction;
      repeat (destruct Hc' as [<-|Hc']); try contradiction;
      cbn [snd]; intros Heq; try reflexivity; discriminate Heq.
  - intros Hfire. apply in_map. apply filter_In. now split.
Qed.

(** ** The component *)

Lemma slice_0_10 {A : Type} (l : list A) : JS.slice l 0 10 = firstn 10 l.
Proof. reflexivity. Qed.

Lemma history_updater_spec (r : ScanResult) (prev : list ScanResult) :
  history_updater r prev = spec_append r prev.
Proof. reflexivity. Qed.

Lemma history_updater_length (r : ScanResult) (prev : list ScanResult) :
  length (history_updater r prev) <= 10.
Proof.
  rewrite history_updater_spec. unfold spec_append.
  rewrite length_take. lia.
Qed.

Section AppFacts.
Context {P : Platform}.

(** The [try] branch, when the checks return. *)
Lemma scanUrl_resume_parsed env url ts d0 w :
  performSecurityChecks env url = JS.Normal (ts, d0) ->
  exists d,
    performSecurityChecks env url = JS.Normal (fired_labels url, d)
    /\ let r := {| url := url;
                   timestamp := Date_now env;
                   safe := (length (fired_labels url) =? 0)%nat;
                   threats := fired_labels url;
                   details := d |} in
       scanUrl_resume env url w
       = setScanning false (setHistory (history_updater r) (setResult (Some r) w)).
Proof.
  intros Hc.
  destruct (performSecurityChecks_Normal env url ts d0 Hc) as (_ & _ & -> & _).
  exists d0. split; [exact Hc|].
  unfold scanUrl_resume, JS.try_catch, JS.bind. rewrite Hc. reflexivity.
Qed.

(** The [catch] branch, when they throw. *)
Lemma scanUrl_resume_failed env url e w :
  performSecurityChecks env url = JS.Throw e ->
  scanUrl_resume env url w
  = setScanning false
      (setResult
         (Some {| url := url;
                  timestamp := Date_now env;
                  safe := false;
                  threats := ["Invalid URL format"];
                  details := {| protocol := "unknown";
                                domain := "unknown";
                                responseTime := 0%float;
                                certificates := None |} |})
         w).
Proof.
  intros Hc. unfold scanUrl_resume, JS.try_catch, JS.bind.
  now rewrite Hc.
Qed.

Lemma safe_flag_of_length (u : string) (t : Z) (ts : list string) (d : Details) :
  safe_iff_no_threats
    {| url := u; timestamp := t; safe := (length ts =? 0)%nat;
       threats := ts; details := d |}.
Proof.
  unfold safe_iff_no_threats; cbn [safe threats].
  destruct ts as [|x ts]; cbn; split; intros Hx; try reflexivity; discriminate Hx.
Qed.

(** Whatever the string, [scanUrl] leaves a result, and it is sound. *)
Lemma scanUrl_resume_result env url w :
  exists r,
    st_result (scanUrl_resume env url w) = Some r /\ safe_iff_no_threats r.
Proof.
  destruct (performSecurityChecks env url) as [[ts0 d0]|e] eqn:Hp.
  - destruct (scanUrl_resume_parsed env url ts0 d0 w Hp) as (d & _ & ->).
    eexists; split; [reflexivity|]. apply safe_flag_of_length.
  - rewrite (scanUrl_resume_failed env url e w Hp).
    eexists; split; [reflexivity|].
    unfold safe_iff_no_threats; cbn. split; intros Hx; discriminate Hx.
Qed.

(** [commit] touches the store and the effect's memory only. *)
Lemma commit_history w : st_history (commit w) = st_history w.
Proof. unfold commit. case_decide; reflexivity. Qed.

Lemma commit_result w : st_result (commit w) = st_result w.
Proof. unfold commit. case_decide; reflexivity. Qed.

Lemma commit_next_ref w : next_ref (commit w) = next_ref w.
Proof. unfold commit. case_decide; reflexivity. Qed.

Lemma commit_effect_dep w : effect_dep (commit w) = Some (ref (st_history w)).
Proof. unfold commit. case_decide; [assumption|reflexivity]. Qed.

Lemma commit_committed w :
  ref (st_history w) < next_ref w -> committed (commit w).
Proof.
  intros Hlt. unfold committed.
  rewrite commit_effect_dep, commit_history, commit_next_ref. now split.
Qed.

(** When [history] is a new array the effect runs and writes the key. *)
Lemma commit_fresh w :
  effect_dep w <> Some (ref (st_history w)) ->
  localStorage (commit w)
  = <["scan-history" := JSON_stringify (elems (st_history w))]> (localStorage w).
Proof. intros Hne. unfold commit. case_decide; [contradiction|reflexivity]. Qed.

(** When it is the same array the store is left alone. *)
Lemma commit_same w :
  effect_dep w = Some (ref (st_history w)) -> commit w = w.
Proof. intros Heq. unfold commit. case_decide; [reflexivity|contradiction]. Qed.

End AppFacts.

(** ** Sessions *)

Section SessionFacts.
Context {P : Platform}.

(** An invariant of every event is an invariant of every session. *)
Lemma reaches_invariant (I : World -> Prop) :
  (forall e w, I w -> enabled e w = true -> I (handle e w)) ->
  forall w0 w, I w0 -> reaches w0 w -> I w.
Proof.
  intros Hstep w0 w H0 Hr.
  induction Hr as [|w w' _ IH Hs]; [exact H0|].
  destruct Hs as [e w Hen]. now apply Hstep.
Qed.

Lemma reaches_trans w0 w1 w2 : reaches w0 w1 -> reaches w1 w2 -> reaches w0 w2.
Proof.
  intros H01 H12. induction H12 as [|w w' _ IH Hs]; [exact H01|].
  now apply reaches_step with w.
Qed.

Lemma reaches_run es w : reaches w (run es w).
Proof.
  revert w. induction es as [|e es IH]; intros w; cbn.
  - apply reaches_refl.
  - destruct (enabled e w) eqn:Hen.
    + apply reaches_trans with (handle e w); [|apply IH].
      apply reaches_step with w; [apply reaches_refl|now constructor].
    + apply IH.
Qed.

(** Mounting over a store without the key starts from the empty
    history, and the first render writes the key. *)
Lemma mount_fresh (store : gmap string string) :
  store !! "scan-history" = None ->
  exists w0,
    mount store = JS.Normal w0
    /\ elems (st_history w0) = []
    /\ st_result w0 = None
    /\ committed w0.
Proof.
  intros Hnone. unfold mount. rewrite Hnone. cbn [JS.bind].
  eexists; split; [reflexivity|].
  rewrite commit_history, commit_result.
  split; [reflexivity|]. split; [reflexivity|].
  apply commit_committed. cbn. lia.
Qed.

Lemma handler_ref_lt e w :
  ref (st_history w) < next_ref w ->
  ref (st_history (handler e w)) < next_ref (handler e w).
Proof.
  intros Hlt. destruct e as [v| |env| |]; cbn; try assumption; try lia.
  destruct (in_flight w) as [u|]; [|assumption].
  destruct (performSecurityChecks env u) as [[ts0 d0]|err] eqn:Hp.
  - destruct (scanUrl_resume_parsed env u ts0 d0 w Hp) as (d & _ & ->).
    cbn. lia.
  - rewrite (scanUrl_resume_failed env u err w Hp). cbn. assumption.
Qed.

Lemma handle_committed e w : committed w -> committed (handle e w).
Proof.
  intros [_ Hlt]. unfold handle. apply commit_committed.
  now apply handler_ref_lt.
Qed.

Lemma handle_bounded e w : bounded w -> bounded (handle e w).
Proof.
  unfold bounded, handle. rewrite commit_history. intros Hb.
  destruct e as [v| |env| |]; cbn; try assumption; try lia.
  destruct (in_flight w) as [u|]; [|assumption].
  destruct (performSecurityChecks env u) as [[ts0 d0]|err] eqn:Hp.
  - destruct (scanUrl_resume_parsed env u ts0 d0 w Hp) as (d & _ & ->).
    cbn [set_in_flight setScanning setHistory st_history elems].
    apply history_updater_length.
  - rewrite (scanUrl_resume_failed env u err w Hp). cbn. assumption.
Qed.

Lemma handle_results_ok e w : results_ok w -> results_ok (handle e w).
Proof.
  unfold results_ok, handle. rewrite commit_history, commit_result.
  intros [Hres Hhist].
  destruct e as [v| |env| |]; cbn; try (split; assumption).
  - destruct (in_flight w) as [u|]; [|split; assumption].
    destruct (performSecurityChecks env u) as [[ts0 d0]|err] eqn:Hp.
    + destruct (scanUrl_resume_parsed env u ts0 d0 w Hp) as (d & _ & ->).
      cbn [set_in_flight setScanning setHistory setResult st_history st_result elems].
      split.
      * intros r [= <-]. apply safe_flag_of_length.
      * rewrite history_updater_spec. unfold spec_append.
        apply Forall_take. constructor; [apply safe_flag_of_length|assumption].
    + rewrite (scanUrl_resume_failed env u err w Hp). cbn.
      split; [|assumption].
      intros r [= <-]. unfold safe_iff_no_threats; cbn.
      split; intros Hx; discriminate Hx.
  - split; [assumption|constructor].
Qed.

(** Every world of a session from a fresh profile satisfies the three
    invariants. *)
Lemma reachable_invariants w :
  reachable w -> committed w /\ bounded w /\ results_ok w.
Proof.
  intros (store & w0 & Hnone & Hm & Hr).
  destruct (mount_fresh store Hnone) as (w0' & Hm' & Hel & Hres & Hc).
  rewrite Hm in Hm'. injection Hm' as <-.
  apply (reaches_invariant (fun w => committed w /\ bounded w /\ results_ok w))
    with (w0 := w0); [| |exact Hr].
  - intros e w1 (Hc1 & Hb1 & Ho1) _.
    split; [apply handle_committed, Hc1|].
    split; [apply handle_bounded, Hb1|apply handle_results_ok, Ho1].
  - split; [exact Hc|].
    split; [unfold bounded; rewrite Hel; cbn; lia|].
    split.
    + intros r Hr0. rewrite Hres in Hr0. discriminate Hr0.
    + rewrite Hel. constructor.
Qed.

(** [clearHistory] itself leaves the key out of the store ... *)
Lemma clearHistory_removes_key w :
  localStorage (clearHistory w) !! "scan-history" = None.
Proof. cbn. apply lookup_delete_eq. Qed.

(** ... and the render that follows puts it back. *)
Lemma handle_clear_store w :
  committed w ->
  localStorage (handle Click_clear w)
  = <["scan-history" := JSON_stringify []]> (delete "scan-history" (localStorage w)).
Proof.
  intros [Hdep Hlt]. unfold handle. cbn [handler].
  rewrite commit_fresh; [reflexivity|].
  cbn. rewrite Hdep. intros [= Heq]. lia.
Qed.

End SessionFacts.

Lemma example_scanned_reachable : reachable (P := example_platform) example_scanned.
Proof.
  exists ∅, example_world. split; [apply lookup_empty|].
  split; [reflexivity|apply reaches_run].
Qed.

(** * The claims *)

(** C1. Every scan result the program produces, on the path where the
    string parses and on the path where it does not, has [safe = true]
    exactly when its threats list is empty; so has every result a session
    holds, as the latest result or in the history. *)
Theorem safe_iff_threats_empty (P : Platform) :
  (forall env url w,
      exists r, st_result (scanUrl_resume env url w) = Some r
                /\ (safe r = true <-> threats r = []))
  /\ (forall w, reachable w ->
        (forall r, st_result w = Some r -> (safe r = true <-> threats r = []))
        /\ Forall (fun r => safe r = true <-> threats r = []) (elems (st_history w))).
Proof.
  split.
  - intros env url w. apply scanUrl_resume_result.
  - intros w Hr. apply reachable_invariants in Hr as (_ & _ & Hok). exact Hok.
Qed.

Lemma safe_iff_threats_empty_witness :
  reachable (P := example_platform) example_scanned
  /\ (forall r, st_result example_scanned = Some r ->
                (safe r = true <-> threats r = []))
  /\ Forall (fun r => safe r = true <-> threats r = [])
            (elems (st_history example_scanned)).
Proof.
  split; [exact example_scanned_reachable|].
  exact (proj2 (safe_iff_threats_empty example_platform)
               example_scanned example_scanned_reachable).
Defined.

(** C2. After [clearHistory] and the render it triggers the history is
    empty, but the key is back in the store: the handler removes
    [scan-history], and the persistence effect, which runs because
    [history] is a new array, writes the serialised empty list under it. *)
Theorem clear_rewrites_persisted_key (P : Platform) (w : World) :
  reachable w ->
  elems (st_history (handle Click_clear w)) = []
  /\ localStorage (clearHistory w) !! "scan-history" = None
  /\ localStorage (handle Click_clear w) !! "scan-history" = Some (JSON_stringify []).
Proof.
  intros Hr. apply reachable_invariants in Hr as (Hc & _ & _).
  split; [|split].
  - unfold handle. rewrite commit_history. reflexivity.
  - apply clearHistory_removes_key.
  - rewrite (handle_clear_store w Hc). apply lookup_insert_eq.
Qed.

Lemma clear_rewrites_persisted_key_witness :
  reachable (P := example_platform) example_scanned
  /\ enabled Click_clear example_scanned = true
  /\ elems (st_history (handle (P := example_platform) Click_clear example_scanned)) = []
  /\ localStorage (clearHistory example_scanned) !! "scan-history" = None
  /\ localStorage (handle (P := example_platform) Click_clear example_scanned)
       !! "scan-history" = Some "[]".
Proof.
  split; [exact example_scanned_reachable|].
  split; [reflexivity|].
  exact (clear_rewrites_persisted_key example_platform example_scanned
           example_scanned_reachable).
Defined.

Lemma firstn_app_firstn {A : Type} (n : nat) (a b : list A) :
  firstn n (a ++ firstn n b) = firstn n (a ++ b).
Proof.
  rewrite !List.firstn_app, List.firstn_firstn.
  now replace (Nat.min (n - length a) n) with (n - length a) by lia.
Qed.

(** Appending in turn, oldest first, to a history within the bound. *)
Lemma append_all_take (rs h0 : list ScanResult) :
  length h0 <= 10 ->
  fold_left (fun h r => history_updater r h) rs h0 = firstn 10 (rev rs ++ h0).
Proof.
  revert h0. induction rs as [|r rs IH]; intros h0 Hlen.
  - cbn [fold_left rev app]. symmetry. now apply List.firstn_all2.
  - cbn [fold_left rev]. rewrite IH by apply history_updater_length.
    rewrite history_updater_spec. unfold spec_append.
    rewrite firstn_app_firstn. now rewrite <- List.app_assoc.
Qed.

Lemma eleven_appends (rs : list ScanResult) :
  length rs = 11 ->
  fold_left (fun h r => history_updater r h) rs [] = rev (skipn 1 rs).
Proof.
  intros Hlen. rewrite append_all_take by (cbn; lia).
  rewrite List.app_nil_r.
  rewrite <- (List.firstn_skipn 1 rs) at 1.
  rewrite List.rev_app_distr, List.firstn_app.
  assert (length (rev (skipn 1 rs)) = 10) as Hten
      by (rewrite List.length_rev, List.length_skipn; lia).
  rewrite Hten. cbn [Nat.sub firstn].
  rewrite List.app_nil_r. apply List.firstn_all2. lia.
Qed.

(** C3. Appending a result to any history prepends it and keeps the first
    10 entries, and that is what a scan does to the history when the checks
    return (a scan whose checks throw leaves the history as it is); eleven
    results appended in turn to the empty history leave the ten appended
    last, newest first; and no history of a session is longer than 10,
    whether the session starts from a store without the key or from any
    history of at most 10 entries. *)
Theorem append_keeps_ten_newest (P : Platform) :
  (forall r prev, history_updater r prev = firstn 10 (r :: prev))
  /\ (forall env url ts d w,
         performSecurityChecks env url = JS.Normal (ts, d) ->
         exists r,
           st_result (scanUrl_resume env url w) = Some r
           /\ elems (st_history (scanUrl_resume env url w))
              = firstn 10 (r :: elems (st_history w)))
  /\ (forall env url e w,
         performSecurityChecks env url = JS.Throw e ->
         st_history (scanUrl_resume env url w) = st_history w)
  /\ (forall rs,
         length rs = 11 ->
         fold_left (fun h r => history_updater r h) rs [] = rev (skipn 1 rs)
         /\ length (fold_left (fun h r => history_updater r h) rs []) = 10)
  /\ (forall w, reachable w -> length (elems (st_history w)) <= 10)
  /\ (forall w0 w,
         length (elems (st_history w0)) <= 10 ->
         reaches w0 w ->
         length (elems (st_history w)) <= 10).
Proof.
  split; [|split; [|split; [|split; [|split]]]].
  - intros r prev. apply history_updater_spec.
  - intros env url ts d w Hc.
    destruct (scanUrl_resume_parsed env url ts d w Hc) as (d' & _ & ->).
    eexists. split; reflexivity.
  - intros env url e w Hc. now rewrite (scanUrl_resume_failed env url e w Hc).
  - intros rs Hlen. rewrite (eleven_appends rs Hlen). split; [reflexivity|].
    rewrite List.length_rev, List.length_skipn. lia.
  - intros w Hr. apply reachable_invariants in Hr as (_ & Hb & _). exact Hb.
  - intros w0 w H0 Hr.
    apply (reaches_invariant bounded) with (w0 := w0); [|exact H0|exact Hr].
    intros e w1 Hb _. now apply handle_bounded.
Qed.

Lemma append_keeps_ten_newest_witness :
  (performSecurityChecks (P := example_platform) example_env "http://example.xyz"
   = JS.Normal
       (["Insecure connection (non-HTTPS)"; "Suspicious top-level domain detected"],
        {| protocol := "http:"; domain := "example.xyz";
           responseTime := 75%float; certificates := None |})
   /\ exists r,
       st_result (scanUrl_resume (P := example_platform) example_env
                    "http://example.xyz" example_scanned) = Some r
       /\ elems (st_history (scanUrl_resume (P := example_platform) example_env
                               "http://example.xyz" example_scanned))
          = firstn 10 (r :: elems (st_history example_scanned)))
  /\ (length example_results = 11
      /\ fold_left (fun h r => history_updater r h) example_results []
         = map example_result [11; 10; 9; 8; 7; 6; 5; 4; 3; 2]%Z)
  /\ (reachable (P := example_platform) example_scanned
      /\ length (elems (st_history example_scanned)) <= 10).
Proof.
  pose proof (append_keeps_ten_newest example_platform)
    as (_ & Hscan & _ & Heleven & Hreach & _).
  split; [|split].
  - split; [reflexivity|].
    exact (Hscan example_env "http://example.xyz" _ _ example_scanned eq_refl).
  - split; [reflexivity|].
    exact (proj1 (Heleven example_results eq_refl)).
  - split; [exact example_scanned_reachable|].
    exact (Hreach example_scanned example_scanned_reachable).
Defined.

(** C4. When the string does not parse, the scan leaves exactly the fixed
    result: threats [Invalid URL format], domain and protocol [unknown],
    response time 0, not safe, no certificate; the exception stops in the
    [catch] of [scanUrl], and the history and the store are as before. *)
Theorem invalid_url_sentinel (P : Platform) (env : Env) (url : string)
    (e : JS.exn) (w : World) :
  URL_new url = JS.Throw e ->
  st_result (scanUrl_resume env url w)
  = Some {| url := url;
            timestamp := Date_now env;
            safe := false;
            threats := ["Invalid URL format"];
            details := {| protocol := "unknown";
                          domain := "unknown";
                          responseTime := 0%float;
                          certificates := None |} |}
  /\ st_history (scanUrl_resume env url w) = st_history w
  /\ localStorage (scanUrl_resume env url w) = localStorage w
  /\ st_scanning (scanUrl_resume env url w) = false.
Proof.
  intros Hp.
  rewrite (scanUrl_resume_failed env url e w (performSecurityChecks_Throw env url e Hp)).
  repeat split.
Qed.

Lemma invalid_url_sentinel_witness :
  URL_new (Platform := example_platform) "not a url"
  = JS.Throw (JS.TypeError "Invalid URL")
  /\ st_result (scanUrl_resume (P := example_platform) example_env "not a url" example_world)
     = Some {| url := "not a url";
               timestamp := Date_now example_env;
               safe := false;
               threats := ["Invalid URL format"];
               details := {| protocol := "unknown";
                             domain := "unknown";
                             responseTime := 0%float;
                             certificates := None |} |}.
Proof.
  split; [reflexivity|].
  exact (proj1 (invalid_url_sentinel example_platform example_env "not a url"
                  (JS.TypeError "Invalid URL") example_world eq_refl)).
Defined.










(** C9, as stated, fails: [http://example.xyz/a.tk] parses, its hostname
    [example.xyz] ends in [.xyz], the string does not end in [.xyz], and
    the suspicious-TLD label is there, because the string ends in [.tk]. *)
Lemma tld_check_hostname_counterexample :
  exists env url ts d tld,
    performSecurityChecks (P := example_platform) env url = JS.Normal (ts, d)
    /\ In tld [".xyz"; ".tk"; ".ml"; ".ga"; ".cf"]
    /\ (exists front, domain d = String.append front tld)
    /\ (forall front, url <> String.append front tld)
    /\ In "Suspicious top-level domain detected" ts.
Proof.
  exists example_env, "http://example.xyz/a.tk".
  eexists. eexists. exists ".xyz".
  split; [reflexivity|].
  split; [now left|].
  split; [exists "example"; reflexivity|].
  split.
  - intros front Heq.
    assert (JS.endsWith "http://example.xyz/a.tk" ".xyz" = true) as Hs
        by (apply endsWith_spec; now exists front).
    discriminate Hs.
  - cbn. tauto.
Qed.

(** C9, amended. The suspicious-TLD check reads the raw string only: for a
    string that parses, the label is in the threats exactly when the string
    ends with one of the five suffixes. So when the hostname ends in one of
    them and the string ends in none of them, the label is not there. *)
Theorem tld_check_reads_raw_string (P : Platform) (env : Env) (url : string)
    (ts : list string) (d : Details) :
  performSecurityChecks env url = JS.Normal (ts, d) ->
  (In "Suspicious top-level domain detected" ts
   <-> exists tld front,
        In tld [".xyz"; ".tk"; ".ml"; ".ga"; ".cf"] /\ url = String.append front tld)
  /\ ((exists tld front,
          In tld [".xyz"; ".tk"; ".ml"; ".ga"; ".cf"]
          /\ domain d = String.append front tld) ->
      (forall tld front,
          In tld [".xyz"; ".tk"; ".ml"; ".ga"; ".cf"] ->
          url <> String.append front tld) ->
      ~ In "Suspicious top-level domain detected" ts).
Proof.
  intros Hc.
  destruct (performSecurityChecks_Normal env url ts d Hc) as (_ & _ & -> & _).
  assert (In "Suspicious top-level domain detected" (fired_labels url)
          <-> exists tld front,
               In tld [".xyz"; ".tk"; ".ml"; ".ga"; ".cf"]
               /\ url = String.append front tld) as Hiff.
  { rewrite (fired_labels_In url
               (fun s => existsb (JS.endsWith s) [".xyz"; ".tk"; ".ml"; ".ga"; ".cf"],
                "Suspicious top-level domain detected")) by (cbn; tauto).
    cbn [fst]. rewrite existsb_exists. split.
    - intros (tld & Hin & Hends). apply endsWith_spec in Hends as [front Hf].
      now exists tld, front.
    - intros (tld & front & Hin & Hf). exists tld. split; [exact Hin|].
      apply endsWith_spec. now exists front. }
  split; [exact Hiff|].
  intros _ Hnone Hin. apply Hiff in Hin as (tld & front & Htld & Hf).
  exact (Hnone tld front Htld Hf).
Qed.

Lemma slash_ends_in_no_tld (tld front : string) :
  In tld [".xyz"; ".tk"; ".ml"; ".ga"; ".cf"] ->
  "http://example.xyz/" <> String.append front tld.
Proof.
  intros Hin Heq.
  assert (JS.endsWith "http://example.xyz/" tld = true) as Hs
      by (apply endsWith_spec; now exists front).
  cbn [In] in Hin.
  repeat (destruct Hin as [<-|Hin]; [discriminate Hs|]).
  contradiction.
Qed.

Lemma tld_check_reads_raw_string_witness :
  performSecurityChecks (P := example_platform) example_env "http://example.xyz/"
  = JS.Normal
      (["Insecure connection (non-HTTPS)"],
       {| protocol := "http:"; domain := "example.xyz";
          responseTime := 75%float; certificates := None |})
  /\ "example.xyz" = String.append "example" ".xyz"
  /\ ~ In "Suspicious top-level domain detected" ["Insecure connection (non-HTTPS)"].
Proof.
  split; [reflexivity|]. split; [reflexivity|].
  apply (proj2 (tld_check_reads_raw_string example_platform example_env
                  "http://example.xyz/" _ _ eq_refl)).
  - exists ".xyz", "example". split; [now left|reflexivity].
  - exact slash_ends_in_no_tld.
Defined.

(** C10. The threats and the safe flag of a scan do not depend on the draw
    of [Math.random()]: at one clock reading, the classifier's threats are
    the same under any two draws, and two scans of one string that differ
    in the draw only leave results, and histories, that agree on everything
    but the response time. *)
Theorem threats_independent_of_random (P : Platform) (url : string) :
  (forall now draw1 draw2,
      JS.bind (performSecurityChecks {| Date_now := now; Math_random := draw1 |} url)
              (fun checked => JS.Normal (fst checked))
      = JS.bind (performSecurityChecks {| Date_now := now; Math_random := draw2 |} url)
                (fun checked => JS.Normal (fst checked)))
  /\ (forall now draw1 draw2 w,
         let w1 := scanUrl_resume {| Date_now := now; Math_random := draw1 |} url w in
         let w2 := scanUrl_resume {| Date_now := now; Math_random := draw2 |} url w in
         threats <$> st_result w1 = threats <$> st_result w2
         /\ safe <$> st_result w1 = safe <$> st_result w2
         /\ without_responseTime <$> st_result w1 = without_responseTime <$> st_result w2
         /\ map without_responseTime (elems (st_history w1))
            = map without_responseTime (elems (st_history w2))).
Proof.
  split.
  - intros now draw1 draw2. rewrite !performSecurityChecks_eq.
    cbn [Date_now Math_random].
    destruct (URL_new url) as [urlObj|e]; [|reflexivity].
    destruct (JS.startsWith url "https://"); [|reflexivity].
    destruct (format_next_year now) as [text|e]; reflexivity.
  - intros now draw1 draw2 w w1 w2. subst w1 w2.
    unfold scanUrl_resume, JS.try_catch. rewrite !performSecurityChecks_eq.
    cbn [Date_now Math_random].
    destruct (URL_new url) as [urlObj|e]; [|repeat split].
    destruct (JS.startsWith url "https://"); [|repeat split].
    destruct (format_next_year now) as [text|e]; repeat split.
Qed.

(** * Further properties *)

(** ** Each check on its own *)


Lemma fired_labels_nil (s : string) :
  fired_labels s = []
  <-> negb (JS.startsWith s "https://") = false
      /\ (JS.includes s "malware" || JS.includes s "virus") = false
      /\ existsb (JS.endsWith s) [".xyz"; ".tk"; ".ml"; ".ga"; ".cf"] = false
      /\ (100 <? String.length s)%nat = false
      /\ JS.test_class special_characters s = false.
Proof.
  unfold fired_labels, spec_checks. cbn [List.filter map fst snd].
  destruct (negb (JS.startsWith s "https://"));
    destruct (JS.includes s "malware" || JS.includes s "virus");
    destruct (existsb (JS.endsWith s) [".xyz"; ".tk"; ".ml"; ".ga"; ".cf"]);
    destruct (100 <? String.length s)%nat;
    destruct (JS.test_class special_characters s);
    cbn [map snd]; split; try discriminate; try reflexivity;
    try (intros (H1 & H2 & H3 & H4 & H5); discriminate);
    try (intros _; repeat split).
Qed.

Lemma map_filter_NoDup {A B : Type} (f : A -> B) (p : A -> bool) (l : list A) :
  List.NoDup (map f l) -> List.NoDup (map f (List.filter p l)).
Proof.
  induction l as [|x l IH]; cbn [map List.filter]; intros Hnd; [exact Hnd|].
  apply List.NoDup_cons_iff in Hnd as [Hx Hnd].
  destruct (p x); cbn [map]; [|now apply IH].
  apply List.NoDup_cons; [|now apply IH].
  intros Hin. apply Hx. apply in_map_iff in Hin as (y & Hy & Hin).
  apply filter_In in Hin as [Hin _]. apply in_map_iff. now exists y.
Qed.

Lemma filter_length_le {A : Type} (p : A -> bool) (l : list A) :
  length (List.filter p l) <= length l.
Proof.
  induction l as [|x l IH]; cbn [List.filter]; [lia|].
  destruct (p x); cbn [length]; lia.
Qed.









(** X5. The threats of a string that parses hold no label twice, hold at
    most five labels, hold only the five labels of the checks, and never
    hold [Invalid URL format]. *)
Theorem threats_shape (P : Platform) (env : Env) (url : string)
    (ts : list string) (d : Details) :
  performSecurityChecks env url = JS.Normal (ts, d) ->
  List.NoDup ts
  /\ length ts <= 5
  /\ (forall t, In t ts -> In t (map snd spec_checks))
  /\ ~ In "Invalid URL format" ts.
Proof.
  intros Hc.
  destruct (performSecurityChecks_Normal env url ts d Hc) as (_ & _ & -> & _).
  assert (forall t, In t (fired_labels url) -> In t (map snd spec_checks)) as Hsub.
  { intros t Hin. unfold fired_labels in Hin.
    apply in_map_iff in Hin as (c & <- & Hin).
    apply filter_In in Hin as [Hin _]. now apply in_map. }
  split; [apply map_filter_NoDup, spec_labels_NoDup|].
  split.
  - unfold fired_labels. rewrite List.length_map.
    apply (Nat.le_trans _ _ _ (filter_length_le _ _)). cbn. lia.
  - split; [exact Hsub|].
    intros Hin. apply Hsub in Hin. cbn in Hin.
    repeat (destruct Hin as [Hin|Hin]; [discriminate Hin|]). exact Hin.
Qed.

Lemma threats_shape_witness :
  performSecurityChecks (P := example_platform) example_env "http://example.xyz"
  = JS.Normal
      (["Insecure connection (non-HTTPS)"; "Suspicious top-level domain detected"],
       {| protocol := "http:"; domain := "example.xyz";
          responseTime := 75%float; certificates := None |})
  /\ length ["Insecure connection (non-HTTPS)";
             "Suspicious top-level domain detected"] <= 5.
Proof.
  split; [reflexivity|].
  exact (proj1 (proj2 (threats_shape example_platform example_env
                         "http://example.xyz" _ _ eq_refl))).
Defined.

(** X6. A scan whose checks return is safe exactly when the string starts
    with [https://], contains neither [malware] nor [virus], ends with
    none of the five suffixes, has at most 100 code units and holds none of
    the special characters. *)
Theorem safe_verdict_iff (P : Platform) (env : Env) (url : string)
    (ts : list string) (d : Details) (w : World) :
  performSecurityChecks env url = JS.Normal (ts, d) ->
  exists r,
    st_result (scanUrl_resume env url w) = Some r
    /\ (safe r = true
        <-> (exists rest, url = String.append "https://" rest)
            /\ ~ (exists before after,
                     url = String.append before (String.append "malware" after))
            /\ ~ (exists before after,
                     url = String.append before (String.append "virus" after))
            /\ (forall tld front,
                   In tld [".xyz"; ".tk"; ".ml"; ".ga"; ".cf"] ->
                   url <> String.append front tld)
            /\ String.length url <= 100
            /\ (forall c, In c (list_ascii_of_string url) ->
                          ~ In c special_characters)).
Proof.
  intros Hc.
  destruct (scanUrl_resume_parsed env url ts d w Hc) as (d' & _ & ->).
  eexists. split; [reflexivity|]. cbn [safe].
  rewrite Nat.eqb_eq, List.length_zero_iff_nil, fired_labels_nil.
  rewrite negb_false_iff, orb_false_iff, Nat.ltb_ge.
  rewrite <- !not_true_iff_false.
  rewrite startsWith_spec, !includes_spec, test_class_spec, existsb_exists.
  split.
  - intros (H1 & [H2 H3] & H4 & H5 & H6).
    repeat split; try assumption.
    + intros tld front Hin Heq. apply H4. exists tld. split; [exact Hin|].
      apply endsWith_spec. now exists front.
    + intros c Hcu Hcs. apply H6. now exists c.
  - intros (H1 & H2 & H3 & H4 & H5 & H6).
    repeat split; try assumption.
    + intros (tld & Hin & Hends). apply endsWith_spec in Hends as [front Hf].
      exact (H4 tld front Hin Hf).
    + intros (c & Hcu & Hcs). exact (H6 c Hcu Hcs).
Qed.

Lemma safe_verdict_iff_witness :
  performSecurityChecks (P := example_platform) example_env "https://example.com"
  = JS.Normal
      ([], {| protocol := "https:"; domain := "example.com";
              responseTime := 75%float;
              certificates := Some {| valid := true;
                                      issuer := Some "DigiCert Inc";
                                      expiryDate := Some "2027-11-02" |} |})
  /\ exists r,
      st_result (scanUrl_resume (P := example_platform) example_env
                   "https://example.com" example_world) = Some r
      /\ (safe r = true
          <-> (exists rest, "https://example.com" = String.append "https://" rest)
              /\ ~ (exists before after,
                       "https://example.com"
                       = String.append before (String.append "malware" after))
              /\ ~ (exists before after,
                       "https://example.com"
                       = String.append before (String.append "virus" after))
              /\ (forall tld front,
                     In tld [".xyz"; ".tk"; ".ml"; ".ga"; ".cf"] ->
                     "https://example.com" <> String.append front tld)
              /\ String.length "https://example.com" <= 100
              /\ (forall c, In c (list_ascii_of_string "https://example.com") ->
                            ~ In c special_characters)).
Proof.
  split; [reflexivity|].
  exact (safe_verdict_iff example_platform example_env "https://example.com"
           _ _ example_world eq_refl).
Defined.

(** X7. A failure of [format] is reported as an invalid URL: when a
    string parses and starts with [https://] but [format] throws for the
    date one year on, the classifier throws that exception, the scan shows
    the [Invalid URL format] result, and the history is left as it is. A
    string that parses and does not start with [https://] is classified
    at every clock. *)
Theorem format_failure_reported_as_invalid_url (P : Platform) :
  (forall env url urlObj e w,
      URL_new url = JS.Normal urlObj ->
      (exists rest, url = String.append "https://" rest) ->
      format_next_year (Date_now env) = JS.Throw e ->
      performSecurityChecks env url = JS.Throw e
      /\ st_result (scanUrl_resume env url w)
         = Some {| url := url;
                   timestamp := Date_now env;
                   safe := false;
                   threats := ["Invalid URL format"];
                   details := {| protocol := "unknown";
                                 domain := "unknown";
                                 responseTime := 0%float;
                                 certificates := None |} |}
      /\ st_history (scanUrl_resume env url w) = st_history w)
  /\ (forall env url urlObj,
         URL_new url = JS.Normal urlObj ->
         (forall rest, url <> String.append "https://" rest) ->
         exists d, performSecurityChecks env url = JS.Normal (fired_labels url, d)).
Proof.
  split.
  - intros env url urlObj e w Hp Hs Hf. apply startsWith_spec in Hs.
    pose proof (performSecurityChecks_format_throws env url urlObj e Hp Hs Hf) as Hc.
    split; [exact Hc|].
    rewrite (scanUrl_resume_failed env url e w Hc). split; reflexivity.
  - intros env url urlObj Hp Hs.
    eexists. apply (performSecurityChecks_non_https env url urlObj Hp).
    apply not_true_is_false. intros Hst.
    apply startsWith_spec in Hst as [rest Hr]. exact (Hs rest Hr).
Qed.

Lemma format_failure_reported_as_invalid_url_witness :
  URL_new (Platform := example_platform) "https://example.com"
  = JS.Normal {| URL_protocol := "https:"; URL_hostname := "example.com" |}
  /\ format_next_year (Platform := example_platform) (Date_now example_env_late)
     = JS.Throw (JS.RangeError "Invalid time value")
  /\ st_result (scanUrl_resume (P := example_platform) example_env_late
                  "https://example.com" example_world)
     = Some {| url := "https://example.com";
               timestamp := Date_now example_env_late;
               safe := false;
               threats := ["Invalid URL format"];
               details := {| protocol := "unknown";
                             domain := "unknown";
                             responseTime := 0%float;
                             certificates := None |} |}.
Proof.
  split; [reflexivity|]. split; [reflexivity|].
  refine (proj1 (proj2 (proj1 (format_failure_reported_as_invalid_url example_platform)
                          example_env_late "https://example.com" _ _ example_world
                          eq_refl _ eq_refl))).
  exists "example.com". reflexivity.
Defined.

(** ** More invariants of a session *)

Section MoreSessionFacts.
Context {P : Platform}.

Lemma commit_scanning w : st_scanning (commit w) = st_scanning w.
Proof. unfold commit. case_decide; reflexivity. Qed.

Lemma commit_in_flight w : in_flight (commit w) = in_flight w.
Proof. unfold commit. case_decide; reflexivity. Qed.

Lemma commit_url w : st_url (commit w) = st_url w.
Proof. unfold commit. case_decide; reflexivity. Qed.

Lemma commit_showHistory w : st_showHistory (commit w) = st_showHistory w.
Proof. unfold commit. case_decide; reflexivity. Qed.

(** The effect writes one key and leaves the others. *)
Lemma commit_other_keys w k :
  k <> "scan-history" -> localStorage (commit w) !! k = localStorage w !! k.
Proof.
  intros Hk. unfold commit. case_decide; [reflexivity|].
  cbn. now rewrite lookup_insert_ne by congruence.
Qed.

(** After a render the store holds the current history, if it did before
    the handler or if the handler installed a new array. *)
Lemma commit_persisted w :
  (effect_dep w = Some (ref (st_history w)) -> persisted w) ->
  persisted (commit w).
Proof.
  intros Hold. unfold commit. case_decide as Hdep.
  - now apply Hold.
  - unfold persisted. cbn. apply lookup_insert_eq.
Qed.

(** What the timer event does, by the outcome of the checks. *)
Lemma handler_timer_parsed env u ts0 d0 w :
  in_flight w = Some u ->
  performSecurityChecks env u = JS.Normal (ts0, d0) ->
  exists d,
    performSecurityChecks env u = JS.Normal (fired_labels u, d)
    /\ let r := {| url := u;
                   timestamp := Date_now env;
                   safe := (length (fired_labels u) =? 0)%nat;
                   threats := fired_labels u;
                   details := d |} in
       handler (Timer_fires env) w
       = set_in_flight None
           (setScanning false
              (setHistory (history_updater r) (setResult (Some r) w))).
Proof.
  intros Hin Hp. cbn [handler]. rewrite Hin.
  destruct (scanUrl_resume_parsed env u ts0 d0 w Hp) as (d & Hd & ->).
  now exists d.
Qed.

Lemma handler_timer_failed env u e w :
  in_flight w = Some u ->
  performSecurityChecks env u = JS.Throw e ->
  handler (Timer_fires env) w
  = set_in_flight None
      (setScanning false
         (setResult
            (Some {| url := u;
                     timestamp := Date_now env;
                     safe := false;
                     threats := ["Invalid URL format"];
                     details := {| protocol := "unknown";
                                   domain := "unknown";
                                   responseTime := 0%float;
                                   certificates := None |} |})
            w)).
Proof.
  intros Hin Hp. cbn [handler]. rewrite Hin.
  now rewrite (scanUrl_resume_failed env u e w Hp).
Qed.

Lemma handle_persisted e w :
  committed w -> persisted w -> persisted (handle e w).
Proof.
  intros [Hdep Hlt] Hper. unfold handle. apply commit_persisted.
  destruct e as [v| |env| |]; cbn [handler]; try (intros _; exact Hper).
  - destruct (in_flight w) as [u|] eqn:Hin; [|intros _; exact Hper].
    destruct (performSecurityChecks env u) as [[ts0 d0]|err] eqn:Hp.
    + destruct (scanUrl_resume_parsed env u ts0 d0 w Hp) as (d & _ & ->).
      cbn. rewrite Hdep. intros [= Heq]. lia.
    + rewrite (scanUrl_resume_failed env u err w Hp). intros _. exact Hper.
  - cbn. rewrite Hdep. intros [= Heq]. lia.
Qed.

Lemma handle_provenance e w : provenance w -> provenance (handle e w).
Proof.
  unfold provenance, handle. rewrite commit_history, commit_result.
  intros [Hres Hhist].
  destruct e as [v| |env| |]; cbn [handler]; try (split; assumption).
  - destruct (in_flight w) as [u|] eqn:Hin; [|split; assumption].
    destruct (performSecurityChecks env u) as [[ts0 d0]|err] eqn:Hp.
    + destruct (scanUrl_resume_parsed env u ts0 d0 w Hp) as (d & Hd & ->).
      cbn [set_in_flight setScanning setHistory setResult st_history st_result elems].
      assert (from_parsed_scan
                {| url := u; timestamp := Date_now env;
                   safe := (length (fired_labels u) =? 0)%nat;
                   threats := fired_labels u; details := d |}) as Hr
          by (exists env, d; repeat split; exact Hd).
      split.
      * intros r [= <-]. now left.
      * rewrite history_updater_spec. unfold spec_append.
        apply Forall_take. now constructor.
    + rewrite (scanUrl_resume_failed env u err w Hp). cbn.
      split; [|assumption].
      intros r [= <-]. right. exists env, err. split; [exact Hp|reflexivity].
  - cbn. split; [assumption|constructor].
Qed.

Lemma handle_pending_ok e w :
  enabled e w = true -> pending_ok w -> pending_ok (handle e w).
Proof.
  unfold pending_ok, handle. rewrite commit_scanning, commit_in_flight.
  intros Hen [Hscan Hne].
  destruct e as [v| |env| |]; cbn [handler]; try (split; assumption).
  - cbn. split; [reflexivity|].
    intros u [= <-]. cbn in Hen. apply negb_true_iff, orb_false_iff in Hen as [_ Hurl].
    now apply String.eqb_neq.
  - destruct (in_flight w) as [u|] eqn:Hin;
      [|cbn in Hen; rewrite Hin in Hen; discriminate Hen].
    destruct (performSecurityChecks env u) as [[ts0 d0]|err] eqn:Hp.
    + destruct (scanUrl_resume_parsed env u ts0 d0 w Hp) as (d & _ & ->).
      cbn. split; [reflexivity|discriminate].
    + rewrite (scanUrl_resume_failed env u err w Hp).
      cbn. split; [reflexivity|discriminate].
Qed.

Lemma handle_urls_nonempty e w :
  pending_ok w -> urls_nonempty w -> urls_nonempty (handle e w).
Proof.
  unfold urls_nonempty, handle. rewrite commit_history, commit_result.
  intros [_ Hne] [Hres Hhist].
  destruct e as [v| |env| |]; cbn [handler]; try (split; assumption).
  - destruct (in_flight w) as [u|] eqn:Hin; [|split; assumption].
    specialize (Hne u eq_refl).
    destruct (performSecurityChecks env u) as [[ts0 d0]|err] eqn:Hp.
    + destruct (scanUrl_resume_parsed env u ts0 d0 w Hp) as (d & _ & ->).
      cbn [set_in_flight setScanning setHistory setResult st_history st_result elems].
      split.
      * intros r [= <-]. exact Hne.
      * rewrite history_updater_spec. unfold spec_append.
        apply Forall_take. now constructor.
    + rewrite (scanUrl_resume_failed env u err w Hp). cbn.
      split; [|assumption]. intros r [= <-]. exact Hne.
  - cbn. split; [assumption|constructor].
Qed.

(** A mounted component has written the key, whatever the store held. *)
Lemma mount_persisted store w0 :
  mount store = JS.Normal w0 -> persisted w0.
Proof.
  unfold mount, JS.bind.
  destruct (match store !! "scan-history" with
            | Some text => if String.eqb text "" then JS.Normal [] else JSON_parse text
            | None => JS.Normal []
            end) as [initial|e]; [|discriminate].
  intros [= <-]. apply commit_persisted. cbn. discriminate.
Qed.

Lemma reachable_more_invariants w :
  reachable w ->
  persisted w /\ provenance w /\ pending_ok w /\ urls_nonempty w.
Proof.
  intros (store & w0 & Hnone & Hm & Hr).
  pose proof (mount_persisted store w0 Hm) as Hper0.
  destruct (mount_fresh store Hnone) as (w0' & Hm' & Hel & Hres & Hc).
  rewrite Hm in Hm'. injection Hm' as <-.
  assert (pending_ok w0 /\ st_result w0 = None) as [Hpend0 _].
  { revert Hm. unfold mount. rewrite Hnone. cbn [JS.bind]. intros [= <-].
    unfold pending_ok. rewrite commit_scanning, commit_in_flight, commit_result.
    cbn. repeat split. discriminate. }
  apply (reaches_invariant
           (fun w => committed w /\ persisted w /\ provenance w
                     /\ pending_ok w /\ urls_nonempty w))
    with (w := w) in Hr.
  - destruct Hr as (_ & Hr). exact Hr.
  - intros e w1 (Hc1 & Hp1 & Hv1 & Hq1 & Hu1) Hen.
    split; [now apply handle_committed|].
    split; [now apply handle_persisted|].
    split; [now apply handle_provenance|].
    split; [now apply handle_pending_ok|now apply handle_urls_nonempty].
  - split; [exact Hc|]. split; [exact Hper0|].
    split; [|split; [exact Hpend0|]].
    + split; [intros r Hr0; rewrite Hres in Hr0; discriminate Hr0|].
      rewrite Hel. constructor.
    + split; [intros r Hr0; rewrite Hres in Hr0; discriminate Hr0|].
      rewrite Hel. constructor.
Qed.

End MoreSessionFacts.

Lemma fired_labels_not_invalid (s : string) :
  ~ In "Invalid URL format" (fired_labels s).
Proof.
  unfold fired_labels. intros Hin.
  apply in_map_iff in Hin as (c & Heq & Hin).
  apply filter_In in Hin as [Hin _].
  unfold spec_checks in Hin. cbn [In] in Hin.
  repeat (destruct Hin as [<-|Hin]; [discriminate Heq|]). exact Hin.
Qed.

(** ** The session *)

(** X8. In every world of a session the store holds, under
    [scan-history], the serialisation of the history the component holds:
    each change of the history is persisted by the render that follows. *)
Theorem store_mirrors_history (P : Platform) (w : World) :
  reachable w ->
  localStorage w !! "scan-history" = Some (JSON_stringify (elems (st_history w))).
Proof.
  intros Hr. apply reachable_more_invariants in Hr as (Hper & _). exact Hper.
Qed.

Lemma store_mirrors_history_witness :
  reachable (P := example_platform) example_scanned
  /\ localStorage example_scanned !! "scan-history" = Some "[http://example.xyz]".
Proof.
  split; [exact example_scanned_reachable|].
  exact (store_mirrors_history example_platform example_scanned
           example_scanned_reachable).
Defined.

(** X9. The history of a session holds results of strings that parsed
    only: a failed scan is shown as the latest result and never recorded.
    Each entry's threats are the labels its own url fires, so no entry
    holds [Invalid URL format]. *)
Theorem history_holds_parsed_scans_only (P : Platform) (w : World) :
  reachable w ->
  Forall (fun r => (exists urlObj, URL_new (url r) = JS.Normal urlObj)
                   /\ threats r = fired_labels (url r)
                   /\ ~ In "Invalid URL format" (threats r))
         (elems (st_history w)).
Proof.
  intros Hr. apply reachable_more_invariants in Hr as (_ & [_ Hhist] & _).
  eapply Forall_impl; [exact Hhist|].
  intros r (env & d & Hc & _).
  destruct (performSecurityChecks_Normal env (url r) (threats r) d Hc)
    as (urlObj & Hp & Hts & _).
  split; [now exists urlObj|]. split; [exact Hts|].
  rewrite Hts. apply fired_labels_not_invalid.
Qed.

Lemma history_holds_parsed_scans_only_witness :
  reachable (P := example_platform) example_scanned
  /\ Forall (fun r => (exists urlObj,
                          URL_new (Platform := example_platform) (url r)
                          = JS.Normal urlObj)
                      /\ threats r = fired_labels (url r)
                      /\ ~ In "Invalid URL format" (threats r))
            (elems (st_history example_scanned)).
Proof.
  split; [exact example_scanned_reachable|].
  exact (history_holds_parsed_scans_only example_platform example_scanned
           example_scanned_reachable).
Defined.

(** X10. At most one scan is in flight: while a call of [scanUrl] awaits
    its timer, [scanning] is set and the scan button is disabled, and the
    string the call captured is not empty; when none awaits, [scanning] is
    clear. *)
Theorem one_scan_in_flight (P : Platform) (w : World) :
  reachable w ->
  (forall u, in_flight w = Some u ->
             st_scanning w = true
             /\ enabled Click_scan w = false
             /\ scan_disabled (render w) = true
             /\ u <> "")
  /\ (in_flight w = None -> st_scanning w = false).
Proof.
  intros Hr. apply reachable_more_invariants in Hr as (_ & _ & [Hscan Hne] & _).
  split.
  - intros u Hin. rewrite Hin in Hscan.
    unfold enabled, render; cbn [scan_disabled]. rewrite Hscan.
    repeat split. exact (Hne u Hin).
  - intros Hin. now rewrite Hin in Hscan.
Qed.

Lemma one_scan_in_flight_witness :
  reachable (P := example_platform)
    (run (P := example_platform) [Type_url "http://example.xyz"; Click_scan]
       example_world)
  /\ in_flight (run (P := example_platform)
                  [Type_url "http://example.xyz"; Click_scan] example_world)
     = Some "http://example.xyz"
  /\ enabled Click_scan
       (run (P := example_platform) [Type_url "http://example.xyz"; Click_scan]
          example_world) = false.
Proof.
  assert (reachable (P := example_platform)
            (run (P := example_platform)
               [Type_url "http://example.xyz"; Click_scan] example_world)) as Hr.
  { exists ∅, example_world. split; [apply lookup_empty|].
    split; [reflexivity|apply reaches_run]. }
  split; [exact Hr|]. split; [reflexivity|].
  exact (proj1 (proj2 (proj1 (one_scan_in_flight example_platform _ Hr)
                         "http://example.xyz" eq_refl))).
Defined.

(** X11. No string scanned in a session is empty: the latest result and
    every history entry have a url that is not the empty string. *)
Theorem never_scans_empty_string (P : Platform) (w : World) :
  reachable w ->
  (forall r, st_result w = Some r -> url r <> "")
  /\ Forall (fun r => url r <> "") (elems (st_history w)).
Proof.
  intros Hr. apply reachable_more_invariants in Hr as (_ & _ & _ & Hu). exact Hu.
Qed.

Lemma never_scans_empty_string_witness :
  reachable (P := example_platform) example_scanned
  /\ Forall (fun r => url r <> "") (elems (st_history example_scanned)).
Proof.
  split; [exact example_scanned_reachable|].
  exact (proj2 (never_scans_empty_string example_platform example_scanned
                  example_scanned_reachable)).
Defined.

Lemma run_keeps_in_flight (P : Platform) (es : list Event) (w : World) (u : string) :
  in_flight w = Some u ->
  st_scanning w = true ->
  Forall (fun e => forall env, e <> Timer_fires env) es ->
  in_flight (run es w) = Some u /\ st_scanning (run es w) = true.
Proof.
  revert w. induction es as [|e es IH]; intros w Hin Hscan Hes.
  - now split.
  - apply Forall_cons in Hes as [He Hes]. cbn [run fold_left].
    destruct (enabled e w) eqn:Hen; [|now apply IH].
    apply IH; [| |exact Hes]; unfold handle.
    + rewrite commit_in_flight.
      destruct e as [v| |env| |]; cbn; try exact Hin.
      * cbn in Hen. rewrite Hscan in Hen. discriminate Hen.
      * now contradiction (He env).
    + rewrite commit_scanning.
      destruct e as [v| |env| |]; cbn; try exact Hscan.
      * reflexivity.
      * now contradiction (He env).
Qed.

Lemma timer_result (P : Platform) (env : Env) (u : string) (w : World) :
  in_flight w = Some u ->
  exists r,
    st_result (handle (Timer_fires env) w) = Some r
    /\ url r = u /\ timestamp r = Date_now env.
Proof.
  intros Hin. unfold handle. rewrite commit_result.
  destruct (performSecurityChecks env u) as [[ts0 d0]|e] eqn:Hp.
  - destruct (handler_timer_parsed env u ts0 d0 w Hin Hp) as (d & _ & ->).
    eexists. split; [reflexivity|]. now split.
  - rewrite (handler_timer_failed env u e w Hin Hp).
    eexists. split; [reflexivity|]. now split.
Qed.

(** X12. A scan is of the string that was in the input when the button
    was clicked: whatever is typed, toggled or cleared while the timer
    runs, the result that the timer leaves has that string as its url, and
    the clock reading of the timer as its timestamp. *)
Theorem scan_uses_url_at_click (P : Platform) (w : World) (es : list Event)
    (env : Env) :
  Forall (fun e => forall env', e <> Timer_fires env') es ->
  exists r,
    st_result (handle (Timer_fires env) (run es (handle Click_scan w))) = Some r
    /\ url r = st_url w
    /\ timestamp r = Date_now env.
Proof.
  intros Hes. apply timer_result.
  apply (run_keeps_in_flight P es (handle Click_scan w) (st_url w)); [| |exact Hes].
  - unfold handle. rewrite commit_in_flight. reflexivity.
  - unfold handle. rewrite commit_scanning. reflexivity.
Qed.

Lemma scan_uses_url_at_click_witness :
  Forall (fun e => forall env', e <> Timer_fires env')
         [Type_url "https://example.com"; Click_history]
  /\ exists r,
      st_result
        (handle (P := example_platform) (Timer_fires example_env)
           (run (P := example_platform)
              [Type_url "https://example.com"; Click_history]
              (handle (P := example_platform) Click_scan
                 (handle (P := example_platform) (Type_url "http://example.xyz")
                    example_world))))
      = Some r
      /\ url r = "http://example.xyz"
      /\ timestamp r = Date_now example_env.
Proof.
  assert (Forall (fun e => forall env', e <> Timer_fires env')
                 [Type_url "https://example.com"; Click_history]) as Hes
      by (repeat constructor; discriminate).
  split; [exact Hes|].
  exact (scan_uses_url_at_click example_platform
           (handle (P := example_platform) (Type_url "http://example.xyz")
              example_world)
           _ example_env Hes).
Defined.

(** X13. The component reads and writes one key of the store: no event,
    and no mount, changes what the store holds under any other key. *)
Theorem other_keys_untouched (P : Platform) (k : string) :
  k <> "scan-history" ->
  (forall e w, localStorage (handle e w) !! k = localStorage w !! k)
  /\ (forall store w0, mount store = JS.Normal w0 ->
                       localStorage w0 !! k = store !! k).
Proof.
  intros Hk. split.
  - intros e w. unfold handle. rewrite commit_other_keys by exact Hk.
    destruct e as [v| |env| |]; cbn [handler]; try reflexivity.
    + destruct (in_flight w) as [u|]; [|reflexivity].
      destruct (performSecurityChecks env u) as [[ts0 d0]|err] eqn:Hp.
      * destruct (scanUrl_resume_parsed env u ts0 d0 w Hp) as (d & _ & ->).
        reflexivity.
      * now rewrite (scanUrl_resume_failed env u err w Hp).
    + cbn. now rewrite lookup_delete_ne by congruence.
  - intros store w0. unfold mount, JS.bind.
    destruct (match store !! "scan-history" with
              | Some text => if String.eqb text "" then JS.Normal [] else JSON_parse text
              | None => JS.Normal []
              end) as [initial|e]; [|discriminate].
    intros [= <-]. now rewrite commit_other_keys by exact Hk.
Qed.

Lemma other_keys_untouched_witness :
  "theme" <> "scan-history"
  /\ localStorage
       (handle (P := example_platform) Click_clear
          (set_localStorage (<["theme" := "dark"]> (localStorage example_scanned))
             example_scanned))
     !! "theme"
     = Some "dark".
Proof.
  split; [discriminate|].
  rewrite (proj1 (other_keys_untouched example_platform "theme"
                    ltac:(discriminate))).
  apply lookup_insert_eq.
Defined.

(** X14. Clearing the history leaves the latest result, the input and the
    history switch as they were; with the history empty the history panel,
    and the Clear button in it, are no longer rendered. *)
Theorem clear_keeps_latest_result (P : Platform) (w : World) :
  st_result (handle Click_clear w) = st_result w
  /\ st_url (handle Click_clear w) = st_url w
  /\ st_showHistory (handle Click_clear w) = st_showHistory w
  /\ history_panel (render (handle Click_clear w)) = None
  /\ enabled Click_clear (handle Click_clear w) = false.
Proof.
  unfold handle, render, enabled; cbn [history_panel].
  rewrite commit_result, commit_url, commit_showHistory, commit_history.
  cbn. rewrite andb_false_r. repeat split.
Qed.

(** X15. A scan whose checks return makes the history one entry longer,
    up to 10: from any history, also one longer than 10, the new length is
    the smaller of 10 and the old length plus one. *)
Theorem scan_history_length (P : Platform) (env : Env) (u : string)
    (ts : list string) (d : Details) (w : World) :
  in_flight w = Some u ->
  performSecurityChecks env u = JS.Normal (ts, d) ->
  length (elems (st_history (handle (Timer_fires env) w)))
  = Nat.min 10 (S (length (elems (st_history w)))).
Proof.
  intros Hin Hp. unfold handle. rewrite commit_history.
  destruct (handler_timer_parsed env u ts d w Hin Hp) as (d' & _ & ->).
  cbn [set_in_flight setScanning setHistory st_history elems].
  rewrite history_updater_spec. unfold spec_append.
  rewrite List.length_firstn. reflexivity.
Qed.

Lemma scan_history_length_witness :
  in_flight example_full_world = Some "http://example.xyz"
  /\ performSecurityChecks (P := example_platform) example_env "http://example.xyz"
     = JS.Normal
         (["Insecure connection (non-HTTPS)"; "Suspicious top-level domain detected"],
          {| protocol := "http:"; domain := "example.xyz";
             responseTime := 75%float; certificates := None |})
  /\ length (elems (st_history example_full_world)) = 11
  /\ length (elems (st_history
                      (handle (P := example_platform) (Timer_fires example_env)
                         example_full_world)))
     = 10.
Proof.
  split; [reflexivity|]. split; [reflexivity|]. split; [reflexivity|].
  exact (scan_history_length example_platform example_env "http://example.xyz" _ _
           example_full_world eq_refl eq_refl).
Defined.

(** ** Mounting and reloading *)

(** X16. Mounting over a store that holds nothing, or the empty text,
    under [scan-history] starts from the empty history without calling the
    parser, with no result, nothing in flight and the history panel
    closed; the first render then writes the serialised empty list under
    the key. *)
Theorem mount_without_saved_history (P : Platform) (store : gmap string string) :
  store !! "scan-history" = None \/ store !! "scan-history" = Some "" ->
  exists w0,
    mount store = JS.Normal w0
    /\ elems (st_history w0) = []
    /\ st_result w0 = None
    /\ in_flight w0 = None
    /\ st_showHistory w0 = false
    /\ localStorage w0 = <["scan-history" := JSON_stringify []]> store.
Proof.
  intros Hsaved. unfold mount.
  assert (match store !! "scan-history" with
          | Some text => if String.eqb text "" then JS.Normal [] else JSON_parse text
          | None => JS.Normal []
          end = JS.Normal []) as ->
      by (destruct Hsaved as [-> | ->]; reflexivity).
  cbn [JS.bind]. eexists. split; [reflexivity|].
  rewrite commit_history, commit_result, commit_in_flight, commit_showHistory.
  repeat (split; [reflexivity|]).
  rewrite commit_fresh by (cbn; discriminate). reflexivity.
Qed.

Lemma mount_without_saved_history_witness :
  ({["scan-history" := ""]} : gmap string string) !! "scan-history" = Some ""
  /\ exists w0,
      mount (P := example_platform) {["scan-history" := ""]} = JS.Normal w0
      /\ elems (st_history w0) = []
      /\ st_result w0 = None
      /\ in_flight w0 = None
      /\ st_showHistory w0 = false
      /\ localStorage w0
         = <["scan-history" := "[]"]> ({["scan-history" := ""]} : gmap string string).
Proof.
  split; [reflexivity|].
  exact (mount_without_saved_history example_platform {["scan-history" := ""]}
           (or_intror eq_refl)).
Defined.

(** X17. Mounting fails exactly when the store holds a text under
    [scan-history] that is not empty and that the JSON parser rejects; the
    parser's exception is the one that escapes. *)
Theorem mount_throws_iff (P : Platform) (store : gmap string string) (e : JS.exn) :
  mount store = JS.Throw e
  <-> exists text,
        store !! "scan-history" = Some text
        /\ text <> ""
        /\ JSON_parse text = JS.Throw e.
Proof.
  unfold mount. destruct (store !! "scan-history") as [text|].
  - destruct (String.eqb_spec text "") as [->|Hne].
    + cbn [JS.bind]. split; [discriminate|].
      intros (text & [= <-] & Hne & _). now contradiction Hne.
    + destruct (JSON_parse text) as [initial|e'] eqn:Hparse; cbn [JS.bind].
      * split; [discriminate|].
        intros (text' & [= <-] & _ & Hthrow). rewrite Hparse in Hthrow.
        discriminate Hthrow.
      * split.
        -- intros [= <-]. now exists text.
        -- intros (text' & [= <-] & _ & Hthrow). rewrite Hparse in Hthrow.
           now injection Hthrow as ->.
  - cbn [JS.bind]. split; [discriminate|].
    intros (text & Hsome & _). discriminate Hsome.
Qed.

(** X18. Reloading restores the history: when the parser reads back the
    text the serialiser writes for the current history, and that text is
    not empty, mounting over the store of a session's world gives a
    component with that history; the store is unchanged, and the latest
    result, which is not persisted, is gone. *)
Theorem reload_restores_history (P : Platform) (w : World) :
  reachable w ->
  JSON_parse (JSON_stringify (elems (st_history w)))
  = JS.Normal (elems (st_history w)) ->
  JSON_stringify (elems (st_history w)) <> "" ->
  exists w0,
    mount (localStorage w) = JS.Normal w0
    /\ elems (st_history w0) = elems (st_history w)
    /\ localStorage w0 = localStorage w
    /\ st_result w0 = None.
Proof.
  intros Hr Hround Hne.
  apply reachable_more_invariants in Hr as (Hper & _).
  unfold persisted in Hper. unfold mount. rewrite Hper.
  apply String.eqb_neq in Hne. rewrite Hne, Hround. cbn [JS.bind].
  eexists. split; [reflexivity|].
  rewrite commit_history, commit_result.
  split; [reflexivity|]. split; [|reflexivity].
  rewrite commit_fresh by (cbn; discriminate). cbn.
  now apply insert_id.
Qed.

Lemma example_scanned_more_reachable :
  reachable (P := example_platform_more) example_scanned_more.
Proof.
  exists ∅, example_world. split; [apply lookup_empty|].
  split; [reflexivity|apply reaches_run].
Qed.

Lemma reload_restores_history_witness :
  reachable (P := example_platform_more) example_scanned_more
  /\ elems (st_history example_scanned_more) = [example_entry]
  /\ JSON_parse (Platform := example_platform_more)
       (JSON_stringify (Platform := example_platform_more)
          (elems (st_history example_scanned_more)))
     = JS.Normal (elems (st_history example_scanned_more))
  /\ exists w0,
      mount (P := example_platform_more) (localStorage example_scanned_more)
      = JS.Normal w0
      /\ elems (st_history w0) = elems (st_history example_scanned_more)
      /\ localStorage w0 = localStorage example_scanned_more
      /\ st_result w0 = None.
Proof.
  split; [exact example_scanned_more_reachable|].
  split; [reflexivity|]. split; [reflexivity|].
  exact (reload_restores_history example_platform_more example_scanned_more
           example_scanned_more_reachable eq_refl ltac:(discriminate)).
Defined.

(** ** What is on screen *)

(** X19. In a session the verdict on screen agrees with the threats on
    screen: the heading is [URL is Safe] with no threats panel when the
    latest result has no threats, and [Threats Detected] with a panel that
    lists all of the result's threats, at least one, otherwise. *)
Theorem verdict_matches_threats (P : Platform) (w : World) (r : ScanResult) :
  reachable w ->
  st_result w = Some r ->
  exists v,
    result_view (render w) = Some v
    /\ ((heading v = "URL is Safe"
         /\ threats_panel v = None
         /\ threats r = [])
        \/ (heading v = "Threats Detected"
            /\ threats_panel v = Some (threats r)
            /\ threats r <> [])).
Proof.
  intros Hr Hres. apply reachable_invariants in Hr as (_ & _ & [Hok _]).
  specialize (Hok r Hres). unfold safe_iff_no_threats in Hok.
  unfold render; cbn [result_view]. rewrite Hres.
  eexists. split; [reflexivity|]. cbn [heading threats_panel].
  destruct (safe r); cbn [negb].
  - left. repeat split. now apply Hok.
  - right. repeat split. intros Hnil. apply Hok in Hnil. discriminate Hnil.
Qed.

Lemma verdict_matches_threats_witness :
  reachable (P := example_platform) example_scanned
  /\ exists r,
      st_result example_scanned = Some r
      /\ exists v,
          result_view (render example_scanned) = Some v
          /\ ((heading v = "URL is Safe"
               /\ threats_panel v = None
               /\ threats r = [])
              \/ (heading v = "Threats Detected"
                  /\ threats_panel v = Some (threats r)
                  /\ threats r <> [])).
Proof.
  split; [exact example_scanned_reachable|].
  eexists. split; [reflexivity|].
  exact (verdict_matches_threats example_platform example_scanned _
           example_scanned_reachable eq_refl).
Defined.

(** X20. In a session the certificate panel is on screen exactly when the
    latest result is of an [https://] string and is not the
    [Invalid URL format] result of a failed scan; the certificate shown is
    then valid, with the fixed issuer. *)
Theorem certificate_panel_iff (P : Platform) (w : World) (r : ScanResult) :
  reachable w ->
  st_result w = Some r ->
  exists v,
    result_view (render w) = Some v
    /\ ((exists c, certificate_panel v = Some c)
        <-> (exists rest, url r = String.append "https://" rest)
            /\ ~ In "Invalid URL format" (threats r))
    /\ (forall c, certificate_panel v = Some c ->
                  valid c = true /\ issuer c = Some "DigiCert Inc").
Proof.
  intros Hr Hres.
  apply reachable_more_invariants in Hr as (_ & [Hprov _] & _).
  unfold render; cbn [result_view]. rewrite Hres.
  eexists. split; [reflexivity|]. cbn [certificate_panel].
  rewrite <- startsWith_spec.
  destruct (Hprov r Hres) as [(env & d & Hc & Hd & _)|(env & e & Hp & Heq)].
  - destruct (performSecurityChecks_Normal env (url r) (threats r) d Hc)
      as (urlObj & _ & Hts & cert & Hdd & Hcert).
    rewrite Hd, Hdd. cbn [certificates].
    assert (~ In "Invalid URL format" (threats r)) as Hvalid
        by (rewrite Hts; apply fired_labels_not_invalid).
    destruct (JS.startsWith (url r) "https://").
    + destruct Hcert as (text & _ & ->). split.
      * split; [intros _; now split|]. intros _. eexists. reflexivity.
      * intros c [= <-]. now split.
    + rewrite Hcert. split.
      * split; [intros [c Hx]; discriminate Hx|intros [Hx _]; discriminate Hx].
      * intros c Hx. discriminate Hx.
  - rewrite Heq. cbn [details certificates url threats]. split.
    + split; [intros [c Hx]; discriminate Hx|].
      intros [_ Hx]. contradiction Hx. now left.
    + intros c Hx. discriminate Hx.
Qed.

Lemma example_scanned_https_reachable :
  reachable (P := example_platform) example_scanned_https.
Proof.
  exists ∅, example_world. split; [apply lookup_empty|].
  split; [reflexivity|apply reaches_run].
Qed.

Lemma certificate_panel_iff_witness :
  reachable (P := example_platform) example_scanned_https
  /\ exists r,
      st_result example_scanned_https = Some r
      /\ url r = "https://example.com"
      /\ exists v c,
          result_view (render example_scanned_https) = Some v
          /\ certificate_panel v = Some c.
Proof.
  split; [exact example_scanned_https_reachable|].
  eexists. split; [reflexivity|]. split; [reflexivity|].
  destruct (certificate_panel_iff example_platform example_scanned_https _
              example_scanned_https_reachable eq_refl) as (v & Hv & Hiff & _).
  destruct (proj2 Hiff) as [c Hc].
  - split; [exists "example.com"; reflexivity|].
    cbn. intros [].
  - now exists v, c.
Defined.

(** X21. In a session the history panel, when rendered, lists the whole
    history, between 1 and 10 rows; the Clear button is there to click
    exactly when the panel is rendered. *)
Theorem history_panel_rows (P : Platform) (w : World) :
  reachable w ->
  (forall rows, history_panel (render w) = Some rows ->
                rows = elems (st_history w) /\ 1 <= length rows <= 10)
  /\ (enabled Click_clear w = true <-> exists rows, history_panel (render w) = Some rows).
Proof.
  intros Hr. apply reachable_invariants in Hr as (_ & Hb & _).
  unfold bounded in Hb. unfold render, enabled; cbn [history_panel].
  destruct (st_showHistory w); cbn [andb].
  - destruct (elems (st_history w)) as [|r h] eqn:Hel; cbn.
    + split; [intros rows Hx; discriminate Hx|].
      split; [discriminate|intros [rows Hx]; discriminate Hx].
    + split.
      * intros rows [= <-]. cbn in Hb |- *. split; [reflexivity|lia].
      * split; [intros _; eexists; reflexivity|reflexivity].
  - split; [intros rows Hx; discriminate Hx|].
    split; [discriminate|intros [rows Hx]; discriminate Hx].
Qed.

Lemma history_panel_rows_witness :
  reachable (P := example_platform) example_scanned
  /\ enabled Click_clear example_scanned = true
  /\ exists rows, history_panel (render example_scanned) = Some rows.
Proof.
  split; [exact example_scanned_reachable|]. split; [reflexivity|].
  exact (proj1 (proj2 (history_panel_rows example_platform example_scanned
                         example_scanned_reachable)) eq_refl).
Defined.

(** X22. The history switch is an involution on a session's world: one
    click changes the button text and nothing in the store, two clicks
    give back the same world. *)
Theorem toggle_twice (P : Platform) (w : World) :
  reachable w ->
  handle Click_history (handle Click_history w) = w
  /\ toggle_text (render (handle Click_history w)) <> toggle_text (render w)
  /\ localStorage (handle Click_history w) = localStorage w.
Proof.
  intros Hr. apply reachable_invariants in Hr as ([Hdep _] & _).
  assert (handle Click_history w = setShowHistory (negb (st_showHistory w)) w) as Hone
      by (unfold handle; cbn [handler]; now apply commit_same).
  rewrite Hone. split; [|split; [|reflexivity]].
  - unfold handle; cbn [handler]. rewrite commit_same by exact Hdep.
    destruct w; cbn. now rewrite negb_involutive.
  - unfold render; cbn. destruct (st_showHistory w); discriminate.
Qed.

Lemma toggle_twice_witness :
  reachable (P := example_platform) example_scanned
  /\ handle (P := example_platform) Click_history
       (handle (P := example_platform) Click_history example_scanned)
     = example_scanned.
Proof.
  split; [exact example_scanned_reachable|].
  exact (proj1 (toggle_twice example_platform example_scanned
                  example_scanned_reachable)).
Defined.
